(** * Healthcare capacity dashboard (healthcapacity.py)

    A shallow embedding of the data pipeline that runs when the module is
    imported (merge of the two tables, derived columns, summary cards,
    monthly averages) and of the [update_graph] callback, followed by the
    properties of the pipeline and of the callback.

    Conventions.
    - A DataFrame is the list of its rows, in index order; the merged frame
      has a fresh RangeIndex, so a row label is the position of the row.
    - A Series is the list of its values, in the same order.
    - Integer columns read from the CSV files are int64 columns: values are
      [Z], a column sum wraps around modulo 2^64.
    - float64 is the kernel's binary64 ([PrimFloat.float]), so NaN and the
      infinities behave as they do in NumPy.
    - An exception is a [Raise] result. *)

From Stdlib Require Import ZArith String List Sorted Permutation Floats Lia
  Bool Setoid.
Import ListNotations.

(** ** Exceptions *)

Inductive exn : Type :=
| ValueError (msg : string)
| KeyError
| IndexError.

Inductive result (A : Type) : Type :=
| Ok (a : A)
| Raise (e : exn).

Arguments Ok {A} a.
Arguments Raise {A} e.

Definition rbind {A B} (r : result A) (k : A -> result B) : result B :=
  match r with
  | Ok a => k a
  | Raise e => Raise e
  end.

Declare Scope result_scope.
Delimit Scope result_scope with result.
Notation "'let?' x ':=' r 'in' k" := (rbind r (fun x => k))
  (at level 10, x name, r at level 100, k at level 200) : result_scope.

(** ** The data model *)

(** A parsed [date] cell (the result of [pd.to_datetime]); [.dt.year] and
    [.dt.month] are its first two components. *)
Record Timestamp : Type := mkTimestamp {
  ts_year : Z;
  ts_month : Z;
  ts_day : Z
}.

Definition ts_eqb (a b : Timestamp) : bool :=
  (ts_year a =? ts_year b)%Z && (ts_month a =? ts_month b)%Z
  && (ts_day a =? ts_day b)%Z.

(** A row of cases_state.csv. *)
Record CaseRecord : Type := mkCase {
  c_date : Timestamp;
  c_state : string;
  c_cases_new : Z
}.

(** A row of hospital.csv. *)
Record HospitalRecord : Type := mkHospital {
  h_date : Timestamp;
  h_state : string;
  h_beds : Z;
  h_beds_covid : Z;
  h_admitted_total : Z
}.

(** A row of [df] right after [pd.merge]. *)
Record MergedRecord : Type := mkMerged {
  m_date : Timestamp;
  m_state : string;
  m_cases_new : Z;
  m_beds : Z;
  m_beds_covid : Z;
  m_admitted_total : Z
}.

(** A row of [df] once the [year], [month] and [healthcare_capacity]
    columns have been added. *)
Record JoinedRecord : Type := mkJoined {
  date : Timestamp;
  state : string;
  cases_new : Z;
  beds : Z;
  beds_covid : Z;
  admitted_total : Z;
  year : Z;
  month : Z;
  healthcare_capacity : float
}.

(** A row of [heatmap_data]. *)
Record MonthlyAverage : Type := mkMonthly {
  ma_year : Z;
  ma_month : Z;
  ma_healthcare_capacity : float
}.

(** ** float64 and int64 *)

Module Float64.

(** int64 -> float64 conversion, rounding to nearest even. *)
Definition of_int64 (z : Z) : float :=
  SF2Prim (binary_normalize prec emax z 0 false).

Definition of_nat (n : nat) : float := of_int64 (Z.of_nat n).

Definition notna (x : float) : bool := negb (PrimFloat.is_nan x).

End Float64.

Module Int64.

Definition wrap (z : Z) : Z :=
  ((z + 2 ^ 63) mod 2 ^ 64 - 2 ^ 63)%Z.

Definition in_range (z : Z) : Prop :=
  (- 2 ^ 63 <= z < 2 ^ 63)%Z.

End Int64.

(** ** Series operations *)

Module Series.

Import Float64.
Local Open Scope string_scope.

(** [a / b] on two int64 Series of one frame: element-wise true division
    in float64.  NumPy does not raise on a zero divisor. *)
Fixpoint truediv (a b : list Z) : list float :=
  match a, b with
  | x :: a', y :: b' => (of_int64 x / of_int64 y)%float :: truediv a' b'
  | _, _ => []
  end.

(** [s * k] for a float64 Series and a scalar. *)
Definition mul_scalar (s : list float) (k : float) : list float :=
  map (fun x => (x * k)%float) s.

(** [s.sum()] on an int64 Series. *)
Definition sum_int64 (s : list Z) : Z :=
  fold_left (fun acc x => Int64.wrap (acc + x)) s 0%Z.

(** [s.dropna()]: the values that are not missing, in order. *)
Definition dropna (s : list float) : list float := filter notna s.

(** One step of the compensated (Kahan) sum over the rows of a group, as
    the group mean keeps it: the running sum and the running
    compensation.  A compensation that comes out NaN (it does when an
    infinity enters the sum) is reset to 0, so that an infinite sum stays
    infinite. *)
Definition kahan_step (acc : float * float) (val : float) : float * float :=
  let '(sumx, compensation) := acc in
  let y := (val - compensation)%float in
  let t := (sumx + y)%float in
  let compensation' := (t - sumx - y)%float in
  (t, if PrimFloat.is_nan compensation' then 0%float else compensation').

Definition kahan_sum (s : list float) : float :=
  fst (fold_left kahan_step s (0%float, 0%float)).

(** The mean of the [healthcare_capacity] values of one group: missing
    values are skipped, the others are summed with compensation and the
    sum is divided by their number; NaN when none is left. *)
Definition mean (s : list float) : float :=
  match dropna s with
  | [] => nan
  | x :: s' =>
      (kahan_sum (x :: s') / of_nat (List.length (x :: s')))%float
  end.

(** Before a maximum with [skipna], a missing value is replaced by
    -infinity. *)
Definition fill_neg_inf (s : list float) : list float :=
  map (fun x => if PrimFloat.is_nan x then neg_infinity else x) s.

(** Whether every value is missing (so it is for the empty Series). *)
Definition all_na (s : list float) : bool := forallb PrimFloat.is_nan s.

(** The maximum of two float64 that are not NaN, [a > b ? a : b]: of two
    equal values (two zeros of different signs) the second is kept. *)
Definition maximum (a b : float) : float :=
  if (b <? a)%float then a else b.

(** [s.max()]: the maximum of the filled values; NaN when the Series is
    empty or all missing. *)
Definition max (s : list float) : float :=
  if all_na s then nan
  else match fill_neg_inf s with
       | [] => nan
       | x :: s' => fold_left maximum s' x
       end.

(** The scan of [argmax] over values that are not NaN, left to right
    from position [i]: [best] is the position and value of the largest
    value so far, replaced only by a value that is not below or equal to
    it, so that the first of several equal values is kept. *)
Fixpoint argmax_from (i : nat) (best : option (nat * float))
    (s : list float) : option (nat * float) :=
  match s with
  | [] => best
  | x :: s' =>
      let best' :=
        match best with
        | None => Some (i, x)
        | Some (_, mp) => if negb (x <=? mp)%float then Some (i, x) else best
        end in
      argmax_from (S i) best' s'
  end.

Definition argmax (s : list float) : option (nat * float) :=
  argmax_from O None s.

(** [s.idxmax()]: the position of the first occurrence of the maximum of
    the filled values.  It raises when the Series is empty or all missing
    (older pandas return NaN for an all-missing Series, and the lookup
    [df.loc[nan]] that follows raises instead: the start-up stops either
    way). *)
Definition idxmax (s : list float) : result nat :=
  if all_na s then Raise (ValueError "idxmax of an empty or all-NA Series")
  else match argmax (fill_neg_inf s) with
       | Some (i, _) => Ok i
       | None => Raise (ValueError "idxmax of an empty or all-NA Series")
       end.

(** [fillna(0)] on one float64 cell. *)
Definition fillna0 (x : float) : float :=
  if PrimFloat.is_nan x then 0%float else x.

(** [s.unique()] on a column of strings: the distinct values in order of
    first appearance; [seen] holds the values met so far. *)
Fixpoint unique_from (seen : list string) (s : list string) : list string :=
  match s with
  | [] => []
  | x :: s' =>
      if existsb (String.eqb x) seen then unique_from seen s'
      else x :: unique_from (x :: seen) s'
  end.

Definition unique (s : list string) : list string := unique_from [] s.

End Series.

(** ** DataFrame operations *)

Module Frame.

Import Float64.
Local Open Scope string_scope.
Local Open Scope result_scope.

(** *** [pd.merge(cases_state_df, hospital_df, on=['date','state'])] *)

Definition on_date_state (c : CaseRecord) (h : HospitalRecord) : bool :=
  ts_eqb (c_date c) (h_date h) && String.eqb (c_state c) (h_state h).

Definition join_row (c : CaseRecord) (h : HospitalRecord) : MergedRecord :=
  {| m_date := c_date c;
     m_state := c_state c;
     m_cases_new := c_cases_new c;
     m_beds := h_beds h;
     m_beds_covid := h_beds_covid h;
     m_admitted_total := h_admitted_total h |}.

(** The default [how='inner']: the order of the left keys is kept, and
    each left row is paired with every right row of the same key. *)
Definition merge (left : list CaseRecord) (right : list HospitalRecord)
  : list MergedRecord :=
  flat_map (fun c => map (join_row c) (filter (on_date_state c) right)) left.

(** *** Column assignment *)

(** [df['year'] = ...; df['month'] = ...; df['healthcare_capacity'] = col]:
    the new columns are attached row by row, in index order. *)
Fixpoint assign_columns (rows : list MergedRecord) (years months : list Z)
    (capacity : list float) : list JoinedRecord :=
  match rows, years, months, capacity with
  | r :: rows', y :: years', m :: months', v :: capacity' =>
      {| date := m_date r;
         state := m_state r;
         cases_new := m_cases_new r;
         beds := m_beds r;
         beds_covid := m_beds_covid r;
         admitted_total := m_admitted_total r;
         year := y;
         month := m;
         healthcare_capacity := v |}
      :: assign_columns rows' years' months' capacity'
  | _, _, _, _ => []
  end.

(** *** [df.loc[label]] on a RangeIndex *)

Definition loc {A} (rows : list A) (label : nat) : result A :=
  match nth_error rows label with
  | Some r => Ok r
  | None => Raise KeyError
  end.

(** *** [groupby(['year','month'])['healthcare_capacity'].mean()] *)

Definition ym_eqb (a b : Z * Z) : bool :=
  (fst a =? fst b)%Z && (snd a =? snd b)%Z.

Definition ym_ltb (a b : Z * Z) : bool :=
  (fst a <? fst b)%Z || ((fst a =? fst b)%Z && (snd a <? snd b)%Z).

(** Insertion in a list of keys kept in increasing order, no repeats. *)
Fixpoint insert_key (k : Z * Z) (ks : list (Z * Z)) : list (Z * Z) :=
  match ks with
  | [] => [k]
  | k' :: ks' =>
      if ym_ltb k k' then k :: ks
      else if ym_eqb k k' then ks
      else k' :: insert_key k ks'
  end.

(** The group keys: the distinct (year, month) pairs, sorted
    ([sort=True] is the default). *)
Definition group_keys (rows : list JoinedRecord) : list (Z * Z) :=
  fold_right (fun r ks => insert_key (year r, month r) ks) [] rows.

Definition in_group (k : Z * Z) (r : JoinedRecord) : bool :=
  ym_eqb (year r, month r) k.

Definition group (k : Z * Z) (rows : list JoinedRecord) : list JoinedRecord :=
  filter (in_group k) rows.

(** One row per group key, after [reset_index()]. *)
Definition groupby_mean (rows : list JoinedRecord) : list MonthlyAverage :=
  map (fun k =>
         {| ma_year := fst k;
            ma_month := snd k;
            ma_healthcare_capacity :=
              Series.mean (map healthcare_capacity (group k rows)) |})
      (group_keys rows).

(** [heatmap_data.fillna(0)]: the two key columns are integers, only the
    mean can be missing. *)
Definition fillna (rows : list MonthlyAverage) : list MonthlyAverage :=
  map (fun r =>
         {| ma_year := ma_year r;
            ma_month := ma_month r;
            ma_healthcare_capacity :=
              Series.fillna0 (ma_healthcare_capacity r) |})
      rows.

(** *** [pivot(index='year', columns='month', values='healthcare_capacity')] *)

Record Grid : Type := mkGrid {
  grid_index : list Z;
  grid_columns : list Z;
  grid_values : list (list float)
}.

Fixpoint insert_label (z : Z) (zs : list Z) : list Z :=
  match zs with
  | [] => [z]
  | z' :: zs' =>
      if (z <? z')%Z then z :: zs
      else if (z =? z')%Z then zs
      else z' :: insert_label z zs'
  end.

Definition labels (zs : list Z) : list Z :=
  fold_right insert_label [] zs.

Fixpoint has_duplicates (ks : list (Z * Z)) : bool :=
  match ks with
  | [] => false
  | k :: ks' => existsb (ym_eqb k) ks' || has_duplicates ks'
  end.

Definition ma_key (r : MonthlyAverage) : Z * Z := (ma_year r, ma_month r).

Definition cell (rows : list MonthlyAverage) (y m : Z) : float :=
  match find (fun r => ym_eqb (ma_key r) (y, m)) rows with
  | Some r => ma_healthcare_capacity r
  | None => nan
  end.

Definition duplicate_entries : exn :=
  ValueError "Index contains duplicate entries, cannot reshape".

(** Raises when two rows have the same (index, columns) pair. *)
Definition pivot (rows : list MonthlyAverage) : result Grid :=
  if has_duplicates (map ma_key rows) then Raise duplicate_entries
  else
    let idx := labels (map ma_year rows) in
    let cols := labels (map ma_month rows) in
    Ok {| grid_index := idx;
          grid_columns := cols;
          grid_values := map (fun y => map (cell rows y) cols) idx |}.

(** *** [take] and [sample] *)

Fixpoint take {A} (rows : list A) (positions : list nat) : result (list A) :=
  match positions with
  | [] => Ok []
  | i :: positions' =>
      match nth_error rows i with
      | None => Raise IndexError
      | Some r => let? rest := take rows positions' in Ok (r :: rest)
      end
  end.

Definition larger_sample_than_population : exn :=
  ValueError
    "Cannot take a larger sample than population when 'replace=False'".

Definition empty_population : exn :=
  ValueError "a must be greater than 0 unless no samples are taken".

(** [rows.sample(n=n, random_state=seed)], without replacement.
    [choice population size] stands for the positions drawn by the seeded
    generator, [RandomState(seed).choice(population, size, replace=False)].
    The generator refuses to draw from an empty population (unless
    nothing is asked), then to draw more than the population holds. *)
Definition sample {A} (choice : nat -> nat -> list nat) (n : nat)
    (rows : list A) : result (list A) :=
  if (List.length rows =? 0)%nat && negb (n =? 0)%nat
  then Raise empty_population
  else if (n <=? List.length rows)%nat
  then take rows (choice (List.length rows) n)
  else Raise larger_sample_than_population.

End Frame.

(** ** Chart specifications

    A figure is recorded by the data and the options handed to plotly; what
    plotly derives from them (the regression line of [trendline='ols'],
    the colours) is a function of these. *)

Module Chart.

Local Open Scope string_scope.

(** [go.Scatter(x=..., y=..., mode=..., name=..., yaxis=...)] *)
Record Trace : Type := mkTrace {
  trace_x : list Timestamp;
  trace_y : list float;
  trace_mode : string;
  trace_name : string;
  trace_yaxis : string
}.

Record LineChart : Type := mkLineChart {
  line_x : list Timestamp;
  line_y : list Z;
  line_title : string;
  line_traces : list Trace;
  line_yaxis2 : option (string * string);
  line_showgrid_x : bool;
  line_showgrid_y : bool
}.

Record ScatterPlot : Type := mkScatterPlot {
  scatter_x : list Z;
  scatter_y : list float;
  scatter_trendline : string;
  scatter_title : string;
  scatter_showgrid_x : bool;
  scatter_showgrid_y : bool
}.

Record Heatmap : Type := mkHeatmap {
  heat_z : Frame.Grid;
  heat_labels : string * string;
  heat_color_continuous_scale : string;
  heat_showgrid_x : bool;
  heat_showgrid_y : bool;
  heat_colorbar_tickprefix : string;
  heat_title : string
}.

(** [px.line(frame, x='date', y='cases_new', title=...)] *)
Definition px_line (frame : list JoinedRecord) (title : string) : LineChart :=
  {| line_x := map date frame;
     line_y := map cases_new frame;
     line_title := title;
     line_traces := [];
     line_yaxis2 := None;
     line_showgrid_x := true;
     line_showgrid_y := true |}.

Definition add_trace (fig : LineChart) (t : Trace) : LineChart :=
  {| line_x := line_x fig;
     line_y := line_y fig;
     line_title := line_title fig;
     line_traces := (line_traces fig ++ [t])%list;
     line_yaxis2 := line_yaxis2 fig;
     line_showgrid_x := line_showgrid_x fig;
     line_showgrid_y := line_showgrid_y fig |}.

Definition update_layout_yaxis2 (fig : LineChart) (overlaying side : string)
  : LineChart :=
  {| line_x := line_x fig;
     line_y := line_y fig;
     line_title := line_title fig;
     line_traces := line_traces fig;
     line_yaxis2 := Some (overlaying, side);
     line_showgrid_x := line_showgrid_x fig;
     line_showgrid_y := line_showgrid_y fig |}.

Definition line_hide_grid (fig : LineChart) : LineChart :=
  {| line_x := line_x fig;
     line_y := line_y fig;
     line_title := line_title fig;
     line_traces := line_traces fig;
     line_yaxis2 := line_yaxis2 fig;
     line_showgrid_x := false;
     line_showgrid_y := false |}.

(** [px.scatter(frame, x='cases_new', y='healthcare_capacity',
    trendline='ols', title=...)] followed by the two [showgrid=False]. *)
Definition px_scatter (frame : list JoinedRecord) (title : string)
  : ScatterPlot :=
  {| scatter_x := map cases_new frame;
     scatter_y := map healthcare_capacity frame;
     scatter_trendline := "ols";
     scatter_title := title;
     scatter_showgrid_x := false;
     scatter_showgrid_y := false |}.

(** [px.imshow(grid, labels=..., color_continuous_scale='reds')] followed
    by the layout updates of the callback. *)
Definition px_imshow (grid : Frame.Grid) : Heatmap :=
  {| heat_z := grid;
     heat_labels := ("Month", "Year");
     heat_color_continuous_scale := "reds";
     heat_showgrid_x := false;
     heat_showgrid_y := false;
     heat_colorbar_tickprefix := "%";
     heat_title := "Average Healthcare Capacity by Year and Month" |}.

End Chart.

(** ** The module-level pipeline and the callback *)

Module App.

Import Float64.
Local Open Scope string_scope.

(** The names bound at module level that the callback and the layout
    read. *)
Record Globals : Type := mkGlobals {
  df : list JoinedRecord;
  max_capacity_state : string;
  max_capacity_value : float;
  beds_utilized_by_covid : float;
  heatmap_data : list MonthlyAverage
}.

(** Lines 27-34: the merge and the three derived columns. *)
Definition joined (cases_state_df : list CaseRecord)
    (hospital_df : list HospitalRecord) : list JoinedRecord :=
  let df0 := Frame.merge cases_state_df hospital_df in
  let years := map (fun r => ts_year (m_date r)) df0 in
  let months := map (fun r => ts_month (m_date r)) df0 in
  let capacity :=
    Series.mul_scalar
      (Series.truediv (map m_admitted_total df0) (map m_beds df0))
      100%float in
  Frame.assign_columns df0 years months capacity.

(** Lines 36-47, on the joined frame. *)
Definition summarise (df : list JoinedRecord) : result Globals :=
  (let? label := Series.idxmax (map healthcare_capacity df) in
   let? row := Frame.loc df label in
   let max_capacity_state := state row in
   let max_capacity_value := Series.max (map healthcare_capacity df) in
   let beds_utilized_by_covid :=
     (of_int64 (Series.sum_int64 (map beds_covid df))
      / of_int64 (Series.sum_int64 (map beds df)) * 100)%float in
   let heatmap_data := Frame.fillna (Frame.groupby_mean df) in
   Ok {| df := df;
         max_capacity_state := max_capacity_state;
         max_capacity_value := max_capacity_value;
         beds_utilized_by_covid := beds_utilized_by_covid;
         heatmap_data := heatmap_data |})%result.

(** What importing the module computes from the two tables. *)
Definition startup (cases_state_df : list CaseRecord)
    (hospital_df : list HospitalRecord) : result Globals :=
  summarise (joined cases_state_df hospital_df).

(** *** Callbacks: computations over the module's globals *)

Definition Callback (A : Type) : Type := Globals -> result A * Globals.

Definition ret {A} (a : A) : Callback A := fun g => (Ok a, g).

Definition bind {A B} (c : Callback A) (k : A -> Callback B) : Callback B :=
  fun g =>
    match c g with
    | (Ok a, g') => k a g'
    | (Raise e, g') => (Raise e, g')
    end.

(** Reading a global. *)
Definition read {A} (field : Globals -> A) : Callback A :=
  fun g => (Ok (field g), g).

(** A pandas call on local values: it may raise, it touches no global. *)
Definition call {A} (r : result A) : Callback A := fun g => (r, g).

Declare Scope callback_scope.
Delimit Scope callback_scope with callback.
Notation "x <- c ;; k" := (bind c (fun x => k))
  (at level 61, c at next level, right associativity) : callback_scope.

Section Renderer.

(** The positions drawn by [RandomState(1)]. *)
Variable choice : nat -> nat -> list nat.

Definition Figures : Type :=
  (Chart.LineChart * Chart.ScatterPlot * Chart.Heatmap)%type.

(** The callback of the dropdown.  The boolean selection, the sample and
    the pivot are new frames, and [add_trace] and the layout updates act
    on the figure just built: the two globals are only read. *)
Definition update_graph (selected_state : string) : Callback Figures :=
  (df <- read df ;;
   let filtered_df :=
     filter (fun r => String.eqb (state r) selected_state) df in
   let line_chart := Chart.px_line filtered_df "New Cases Over Time" in
   let line_chart :=
     Chart.add_trace line_chart
       {| Chart.trace_x := map date filtered_df;
          Chart.trace_y := map healthcare_capacity filtered_df;
          Chart.trace_mode := "lines";
          Chart.trace_name := "Healthcare Capacity";
          Chart.trace_yaxis := "y2" |} in
   let line_chart := Chart.update_layout_yaxis2 line_chart "y" "right" in
   let line_chart := Chart.line_hide_grid line_chart in
   scatter_sample <- call (Frame.sample choice 100 filtered_df) ;;
   let scatter_plot :=
     Chart.px_scatter scatter_sample
       (String.append "Healthcare Capacity vs New Cases in " selected_state) in
   heatmap_data <- read heatmap_data ;;
   grid <- call (Frame.pivot heatmap_data) ;;
   let heatmap := Chart.px_imshow grid in
   ret (line_chart, scatter_plot, heatmap))%callback.

End Renderer.

(** *** The dropdown of the layout (lines 86-88) *)

Record Dropdown : Type := mkDropdown {
  dropdown_id : string;
  dropdown_options : list (string * string);
  dropdown_value : string
}.

(** One option per distinct state of [df], label and value alike; the
    initial value is a literal. *)
Definition state_dropdown (g : Globals) : Dropdown :=
  {| dropdown_id := "state-dropdown";
     dropdown_options :=
       map (fun i => (i, i)) (Series.unique (map state (df g)));
     dropdown_value := "Selangor" |}.

End App.

(** ** Vocabulary of the properties

    Predicates and reference functions the statements below are written
    with; none of them is part of the program. *)

Module Spec.

Import Float64 App.
Local Open Scope string_scope.

(** *** float64 values *)

(** NaN or an infinity. *)
Definition non_finite (x : float) : Prop :=
  x = nan \/ x = infinity \/ x = neg_infinity.

(** *** The maximum of a Series and its first position *)

(** Every value of the Series is NaN. *)
Definition all_missing (s : list float) : Prop :=
  Forall (fun x => PrimFloat.is_nan x = true) s.

(** [first_max s i v]: the value [v] at position [i] of [s] is not
    missing, no value of [s] that is not missing exceeds it, and no
    earlier value reaches it. *)
Definition first_max (s : list float) (i : nat) (v : float) : Prop :=
  nth_error s i = Some v
  /\ PrimFloat.is_nan v = false
  /\ (forall x, In x s -> PrimFloat.is_nan x = false ->
                (x <=? v)%float = true)
  /\ (forall j x, (j < i)%nat -> nth_error s j = Some x ->
                  (v <=? x)%float = false).

(** No value of the Series is NaN. *)
Definition none_missing (s : list float) : Prop :=
  Forall (fun x => PrimFloat.is_nan x = false) s.

(** One step of [Series.argmax_from], at position [i]. *)
Definition scan_step (i : nat) (best : option (nat * float)) (x : float)
  : option (nat * float) :=
  match best with
  | None => Some (i, x)
  | Some (_, mp) => if negb (x <=? mp)%float then Some (i, x) else best
  end.

(** The invariant of the scan over the prefix [p] already read. *)
Definition scanned (p : list float) (best : option (nat * float)) : Prop :=
  match best with
  | None => p = []
  | Some (i, v) => first_max p i v
  end.

(** *** The mean, written a second time

    The compensated sum read from the last value back: the sum and the
    compensation after the whole list, given in reverse order. *)
Fixpoint compensated (reversed : list float) : float * float :=
  match reversed with
  | [] => (0%float, 0%float)
  | val :: before =>
      let y := (val - snd (compensated before))%float in
      let t := (fst (compensated before) + y)%float in
      let c := (t - fst (compensated before) - y)%float in
      (t, if PrimFloat.is_nan c then 0%float else c)
  end.

(** The mean of the values that are not NaN: their compensated sum over
    their number, NaN when there is none. *)
Definition mean_of_defined (s : list float) : float :=
  let defined := filter (fun x => negb (PrimFloat.is_nan x)) s in
  match defined with
  | [] => nan
  | _ :: _ =>
      (fst (compensated (rev defined))
       / of_int64 (Z.of_nat (List.length defined)))%float
  end.

(** *** Keys and rows of the merge *)

(** The (date, state) pair of a row. *)
Definition case_key (c : CaseRecord) : Timestamp * string :=
  (c_date c, c_state c).

Definition hospital_key (h : HospitalRecord) : Timestamp * string :=
  (h_date h, h_state h).

Definition joined_key (r : JoinedRecord) : Timestamp * string :=
  (date r, state r).

Definition has_key (k : Timestamp * string) (r : JoinedRecord) : bool :=
  ts_eqb (date r) (fst k) && String.eqb (state r) (snd k).

(** The three column assignments of lines 30-34, read on one row. *)
Definition derive (r : MergedRecord) : JoinedRecord :=
  {| date := m_date r;
     state := m_state r;
     cases_new := m_cases_new r;
     beds := m_beds r;
     beds_covid := m_beds_covid r;
     admitted_total := m_admitted_total r;
     year := ts_year (m_date r);
     month := ts_month (m_date r);
     healthcare_capacity :=
       (of_int64 (m_admitted_total r) / of_int64 (m_beds r) * 100)%float |}.

(** The joined record of a case row and a hospital row of the same key:
    the fields of both, the year and month of the date, and the ratio. *)
Definition joined_row (c : CaseRecord) (h : HospitalRecord) : JoinedRecord :=
  {| date := c_date c;
     state := c_state c;
     cases_new := c_cases_new c;
     beds := h_beds h;
     beds_covid := h_beds_covid h;
     admitted_total := h_admitted_total h;
     year := ts_year (c_date c);
     month := ts_month (c_date c);
     healthcare_capacity :=
       (of_int64 (h_admitted_total h) / of_int64 (h_beds h) * 100)%float |}.

(** The rows a case row contributes. *)
Definition matches (hosp : list HospitalRecord) (c : CaseRecord)
  : list JoinedRecord :=
  map (joined_row c) (filter (Frame.on_date_state c) hosp).

(** *** Group keys *)

(** The order of the group keys: by year, then by month. *)
Definition ym_lt (a b : Z * Z) : Prop := Frame.ym_ltb a b = true.

(** Keys in strictly increasing order. *)
Definition increasing (ks : list (Z * Z)) : Prop := StronglySorted ym_lt ks.

(** *** The pipeline and the callback *)

(** The sum of a column over the integers, without wrap-around. *)
Definition Zsum (s : list Z) : Z := fold_right Z.add 0%Z s.

(** A callback that leaves the globals as it found them, whatever it
    returns or raises. *)
Definition read_only {A} (c : Callback A) : Prop :=
  forall g, snd (c g) = g.

(** The rows of the selected state. *)
Definition filtered (g : Globals) (selected_state : string)
  : list JoinedRecord :=
  filter (fun r => String.eqb (state r) selected_state) (df g).

(** The contract of the seeded generator: [size] positions, all within
    the population. *)
Definition draws_positions (choice : nat -> nat -> list nat) : Prop :=
  forall population size,
    (size <= population)%nat ->
    length (choice population size) = size
    /\ Forall (fun i => (i < population)%nat) (choice population size).

(** The line chart the callback builds from the rows of the selection. *)
Definition line_chart_of (frame : list JoinedRecord) : Chart.LineChart :=
  Chart.line_hide_grid
    (Chart.update_layout_yaxis2
       (Chart.add_trace
          (Chart.px_line frame "New Cases Over Time")
          {| Chart.trace_x := map date frame;
             Chart.trace_y := map healthcare_capacity frame;
             Chart.trace_mode := "lines";
             Chart.trace_name := "Healthcare Capacity";
             Chart.trace_yaxis := "y2" |})
       "y" "right").

(** *** Positions and cells *)

(** The position of the first occurrence of a state in a column. *)
Fixpoint first_index (x : string) (s : list string) : option nat :=
  match s with
  | [] => None
  | y :: s' =>
      if String.eqb x y then Some O else option_map S (first_index x s')
  end.

(** The position of a label in an index. *)
Fixpoint position (z : Z) (zs : list Z) : option nat :=
  match zs with
  | [] => None
  | z' :: zs' =>
      if (z =? z')%Z then Some O else option_map S (position z zs')
  end.

(** The cell of a pivoted grid at the labels [y] and [m]. *)
Definition grid_at (grid : Frame.Grid) (y m : Z) : option float :=
  match position y (Frame.grid_index grid),
        position m (Frame.grid_columns grid) with
  | Some i, Some j =>
      match nth_error (Frame.grid_values grid) i with
      | Some row => nth_error row j
      | None => None
      end
  | _, _ => None
  end.

(** The number of case rows, and of hospital rows, with a given key. *)
Definition count_cases (k : Timestamp * string) (cases : list CaseRecord)
  : nat :=
  List.length
    (filter (fun c => ts_eqb (c_date c) (fst k)
                      && String.eqb (c_state c) (snd k))
            cases).

Definition count_hospital (k : Timestamp * string)
    (hosp : list HospitalRecord) : nat :=
  List.length
    (filter (fun h => ts_eqb (h_date h) (fst k)
                      && String.eqb (h_state h) (snd k))
            hosp).

(** A generator that never draws a position twice (no replacement). *)
Definition draws_distinct_positions (choice : nat -> nat -> list nat)
  : Prop :=
  forall population size,
    (size <= population)%nat ->
    List.length (choice population size) = size
    /\ Forall (fun i => (i < population)%nat) (choice population size)
    /\ NoDup (choice population size).

End Spec.

(** ** Concrete tables *)

Module Fixtures.

Import App.
Local Open Scope string_scope.
Local Open Scope Z_scope.

Definition jan5 : Timestamp := mkTimestamp 2021 1 5.
Definition feb5 : Timestamp := mkTimestamp 2021 2 5.

(** Two states over two months, one unmatched row on each side, and a
    tie for the largest capacity (40 in January for both states). *)
Definition cases_state_df : list CaseRecord :=
  [ mkCase jan5 "Selangor" 10; mkCase jan5 "Penang" 3;
    mkCase feb5 "Selangor" 7; mkCase feb5 "Penang" 4;
    mkCase feb5 "Johor" 1 ].

Definition hospital_df : list HospitalRecord :=
  [ mkHospital jan5 "Penang" 100 10 40; mkHospital jan5 "Selangor" 50 5 20;
    mkHospital feb5 "Selangor" 50 5 10; mkHospital feb5 "Penang" 100 10 30;
    mkHospital feb5 "Kedah" 10 1 1 ].

(** The globals of a start-up that succeeded. *)
Definition started (r : result Globals) : Globals :=
  match r with
  | Ok g => g
  | Raise _ =>
      {| df := []; max_capacity_state := ""; max_capacity_value := nan;
         beds_utilized_by_covid := nan; heatmap_data := [] |}
  end.

Definition globals : Globals :=
  Eval vm_compute in started (startup cases_state_df hospital_df).

(** The literal row {beds: 0, admitted_total: 5}. *)
Definition zero_beds_cases : list CaseRecord :=
  [ mkCase jan5 "Selangor" 10 ].

Definition zero_beds_hospital : list HospitalRecord :=
  [ mkHospital jan5 "Selangor" 0 0 5 ].

Definition zero_beds_row : JoinedRecord :=
  {| date := jan5; state := "Selangor"; cases_new := 10;
     beds := 0; beds_covid := 0; admitted_total := 5;
     year := 2021; month := 1; healthcare_capacity := infinity |}.


(** A state with three joined rows. *)
Definition perlis_cases : list CaseRecord :=
  [ mkCase (mkTimestamp 2021 3 1) "Perlis" 2;
    mkCase (mkTimestamp 2021 3 2) "Perlis" 0;
    mkCase (mkTimestamp 2021 3 3) "Perlis" 5 ].

Definition perlis_hospital : list HospitalRecord :=
  [ mkHospital (mkTimestamp 2021 3 1) "Perlis" 40 4 10;
    mkHospital (mkTimestamp 2021 3 2) "Perlis" 40 4 12;
    mkHospital (mkTimestamp 2021 3 3) "Perlis" 40 4 8 ].

(** Two states with a hundred days each. *)
Definition day (i : nat) : Timestamp :=
  mkTimestamp 2021 (1 + Z.of_nat (i / 28)) (1 + Z.of_nat (i mod 28)).

Definition hundred_cases (s : string) : list CaseRecord :=
  map (fun i => mkCase (day i) s (Z.of_nat i)) (seq 0 100).

Definition hundred_hospital (s : string) : list HospitalRecord :=
  map (fun i => mkHospital (day i) s 100 10 (Z.of_nat i)) (seq 0 100).

Definition long_cases : list CaseRecord :=
  hundred_cases "Selangor" ++ hundred_cases "Penang".

Definition long_hospital : list HospitalRecord :=
  hundred_hospital "Selangor" ++ hundred_hospital "Penang".

Definition long_globals : Globals :=
  Eval vm_compute in started (startup long_cases long_hospital).

(** A generator that draws the first positions. *)
Definition first_positions (population size : nat) : list nat := seq 0 size.

(** A generator that draws the last positions, from the end. *)
Definition last_positions (population size : nat) : list nat :=
  map (fun i => (population - 1 - i)%nat) (seq 0 size).

Definition perlis_globals : Globals :=
  Eval vm_compute in started (startup perlis_cases perlis_hospital).

(** January 2021 and February 2022 only: the year by month grid has two
    cells without data. *)
Definition sparse_cases : list CaseRecord :=
  [ mkCase (mkTimestamp 2021 1 5) "Selangor" 10;
    mkCase (mkTimestamp 2022 2 5) "Selangor" 7 ].

Definition sparse_hospital : list HospitalRecord :=
  [ mkHospital (mkTimestamp 2021 1 5) "Selangor" 50 5 20;
    mkHospital (mkTimestamp 2022 2 5) "Selangor" 50 5 10 ].

Definition sparse_globals : Globals :=
  Eval vm_compute in started (startup sparse_cases sparse_hospital).

Definition sparse_grid : Frame.Grid :=
  {| Frame.grid_index := [2021; 2022];
     Frame.grid_columns := [1; 2];
     Frame.grid_values := [[40%float; nan]; [nan; 20%float]] |}.

(** 7 admitted patients for 100 beds: the exact ratio is 7. *)
Definition seven_cases : list CaseRecord :=
  [ mkCase jan5 "Selangor" 10 ].

Definition seven_hospital : list HospitalRecord :=
  [ mkHospital jan5 "Selangor" 100 10 7 ].

Definition seven_row : JoinedRecord :=
  {| date := jan5; state := "Selangor"; cases_new := 10;
     beds := 100; beds_covid := 10; admitted_total := 7;
     year := 2021; month := 1;
     healthcare_capacity := 0x1.c000000000001p+2 |}.



(** Ten days of January with 1 admitted patient for 1000 beds, then two
    days of February, the first without beds or patients. *)
Definition tenth_cases : list CaseRecord :=
  map (fun i => mkCase (mkTimestamp 2021 1 (1 + Z.of_nat i)) "Selangor" 1)
      (seq 0 10)
  ++ [ mkCase (mkTimestamp 2021 2 1) "Selangor" 1;
       mkCase (mkTimestamp 2021 2 2) "Selangor" 1 ].

Definition tenth_hospital : list HospitalRecord :=
  map (fun i => mkHospital (mkTimestamp 2021 1 (1 + Z.of_nat i)) "Selangor"
                           1000 10 1)
      (seq 0 10)
  ++ [ mkHospital (mkTimestamp 2021 2 1) "Selangor" 0 0 0;
       mkHospital (mkTimestamp 2021 2 2) "Selangor" 50 5 20 ].

Definition tenth_globals : Globals :=
  Eval vm_compute in started (startup tenth_cases tenth_hospital).

Definition zero_beds_globals : Globals :=
  Eval vm_compute in started (startup zero_beds_cases zero_beds_hospital).

End Fixtures.

(** * Properties *)

(** ** Two facts on [filter] *)

Lemma filter_everything {A} (f : A -> bool) l :
  (forall x, In x l -> f x = true) -> filter f l = l.
Proof.
  induction l as [|x l IH]; cbn; intros H; [reflexivity|].
  rewrite (H x) by auto. f_equal. apply IH. auto.
Qed.

Lemma filter_nothing {A} (f : A -> bool) l :
  (forall x, In x l -> f x = false) -> filter f l = [].
Proof.
  induction l as [|x l IH]; cbn; intros H; [reflexivity|].
  rewrite (H x) by auto. apply IH. auto.
Qed.

(** ** Facts on float64: order, NaN, division by zero *)

Module Float64Facts.

Import Float64 Spec.

(** Case analysis on the integer and positive comparisons inside
    [SFcompare]. *)
Ltac cmp_cases :=
  repeat match goal with
    | H : context [Z.compare ?a ?b] |- _ =>
        destruct (Z.compare_spec a b); subst
    | |- context [Z.compare ?a ?b] =>
        destruct (Z.compare_spec a b); subst
    | H : context [Pos.compare_cont Eq ?a ?b] |- _ =>
        change (Pos.compare_cont Eq a b) with (Pos.compare a b) in *;
        destruct (Pos.compare_spec a b); subst
    | |- context [Pos.compare_cont Eq ?a ?b] =>
        change (Pos.compare_cont Eq a b) with (Pos.compare a b) in *;
        destruct (Pos.compare_spec a b); subst
    end.

(** Case analysis on [spec_float] values, then on the comparisons. *)
Ltac sf_cases :=
  repeat match goal with
    | x : spec_float |- _ => destruct x
    end;
  repeat match goal with
    | s : bool |- _ => destruct s
    end;
  cbn in *; try congruence; cmp_cases; cbn in *; try congruence; try lia.

(** *** The order on [spec_float] *)

Lemma SFleb_ltb_trans x y z :
  SFleb x y = true -> SFltb y z = true -> SFleb x z = true.
Proof. unfold SFleb, SFltb, SFcompare. sf_cases. Qed.

Lemma SFleb_ltb_asym x y z :
  SFleb x y = true -> SFltb y z = true -> SFleb z x = false.
Proof. unfold SFleb, SFltb, SFcompare. sf_cases. Qed.

Lemma SFltb_false_leb x y :
  x <> S754_nan -> y <> S754_nan -> SFltb x y = false -> SFleb y x = true.
Proof. unfold SFleb, SFltb, SFcompare. sf_cases. Qed.

Lemma SFleb_refl x : x <> S754_nan -> SFleb x x = true.
Proof. unfold SFleb, SFcompare. sf_cases. Qed.

Lemma SFeqb_refl_iff x : SFeqb x x = true <-> x <> S754_nan.
Proof. unfold SFeqb, SFcompare. split; sf_cases. Qed.


Lemma SFleb_trans x y z :
  SFleb x y = true -> SFleb y z = true -> SFleb x z = true.
Proof. unfold SFleb, SFcompare. sf_cases. Qed.

Lemma SFleb_false_ltb x y :
  x <> S754_nan -> y <> S754_nan -> SFleb x y = false -> SFltb y x = true.
Proof. unfold SFleb, SFltb, SFcompare. sf_cases. Qed.

Lemma SFltb_leb x y : SFltb x y = true -> SFleb x y = true.
Proof. unfold SFleb, SFltb, SFcompare. sf_cases. Qed.



Lemma SFleb_infinity x :
  SFleb (S754_infinity false) x = true -> x = S754_infinity false.
Proof. unfold SFleb, SFcompare. sf_cases. Qed.

(** *** The same facts on float64 *)

Lemma is_nan_spec x : PrimFloat.is_nan x = true <-> Prim2SF x = S754_nan.
Proof.
  unfold PrimFloat.is_nan. rewrite FloatAxioms.eqb_spec, negb_true_iff.
  destruct (SFeqb (Prim2SF x) (Prim2SF x)) eqn:E.
  - apply SFeqb_refl_iff in E. split; congruence.
  - split; [intros _ | reflexivity].
    destruct (Prim2SF x) eqn:Ex; try reflexivity;
      exfalso; assert (SFeqb (Prim2SF x) (Prim2SF x) = true) as E'
        by (apply SFeqb_refl_iff; congruence); rewrite Ex in E'; congruence.
Qed.

Lemma is_nan_false x : PrimFloat.is_nan x = false <-> Prim2SF x <> S754_nan.
Proof.
  rewrite <- is_nan_spec. destruct (PrimFloat.is_nan x); split; congruence.
Qed.

Lemma is_nan_eq x : PrimFloat.is_nan x = true <-> x = nan.
Proof.
  rewrite is_nan_spec. split.
  - intros H. apply Prim2SF_inj. rewrite H. reflexivity.
  - intros ->. reflexivity.
Qed.

Lemma leb_ltb_trans x y z :
  (x <=? y)%float = true -> (y <? z)%float = true -> (x <=? z)%float = true.
Proof.
  rewrite !FloatAxioms.leb_spec, FloatAxioms.ltb_spec.
  apply SFleb_ltb_trans.
Qed.

Lemma leb_ltb_asym x y z :
  (x <=? y)%float = true -> (y <? z)%float = true -> (z <=? x)%float = false.
Proof.
  rewrite !FloatAxioms.leb_spec, FloatAxioms.ltb_spec.
  apply SFleb_ltb_asym.
Qed.

Lemma ltb_false_leb x y :
  PrimFloat.is_nan x = false -> PrimFloat.is_nan y = false ->
  (x <? y)%float = false -> (y <=? x)%float = true.
Proof.
  rewrite !is_nan_false, FloatAxioms.leb_spec, FloatAxioms.ltb_spec.
  apply SFltb_false_leb.
Qed.

Lemma leb_refl x : PrimFloat.is_nan x = false -> (x <=? x)%float = true.
Proof. rewrite is_nan_false, FloatAxioms.leb_spec. apply SFleb_refl. Qed.


Lemma infinity_leb x : (infinity <=? x)%float = true -> x = infinity.
Proof.
  rewrite FloatAxioms.leb_spec.
  change (Prim2SF infinity) with (S754_infinity false). intros H.
  apply SFleb_infinity in H. apply Prim2SF_inj. rewrite H. reflexivity.
Qed.

Lemma leb_trans x y z :
  (x <=? y)%float = true -> (y <=? z)%float = true -> (x <=? z)%float = true.
Proof. rewrite !FloatAxioms.leb_spec. apply SFleb_trans. Qed.

Lemma leb_false_ltb x y :
  PrimFloat.is_nan x = false -> PrimFloat.is_nan y = false ->
  (x <=? y)%float = false -> (y <? x)%float = true.
Proof.
  rewrite !is_nan_false, FloatAxioms.leb_spec, FloatAxioms.ltb_spec.
  apply SFleb_false_ltb.
Qed.

Lemma ltb_leb x y : (x <? y)%float = true -> (x <=? y)%float = true.
Proof. rewrite FloatAxioms.leb_spec, FloatAxioms.ltb_spec. apply SFltb_leb. Qed.



(** *** Division by zero *)

Lemma Prim2SF_infinity_inv x s :
  Prim2SF x = S754_infinity s -> x = infinity \/ x = neg_infinity.
Proof.
  intros H. destruct s; [right | left]; apply Prim2SF_inj; rewrite H;
    reflexivity.
Qed.

(** Whatever the dividend, dividing by zero and scaling by 100 gives NaN
    or an infinity. *)
Lemma SF_div_zero_mul_100 x :
  match SF64mul (SF64div x (S754_zero false))
                (S754_finite false 7036874417766400 (-46)) with
  | S754_nan | S754_infinity _ => True
  | S754_zero _ | S754_finite _ _ _ => False
  end.
Proof. destruct x; exact I. Qed.

Lemma div_zero_mul_100 x : non_finite (x / 0 * 100)%float.
Proof.
  pose proof (SF_div_zero_mul_100 (Prim2SF x)) as H.
  change (S754_zero false) with (Prim2SF 0) in H.
  change (S754_finite false 7036874417766400 (-46)) with (Prim2SF 100) in H.
  rewrite <- div_spec, <- mul_spec in H.
  destruct (Prim2SF (x / 0 * 100)) eqn:E; try contradiction.
  - right. eapply Prim2SF_infinity_inv; eauto.
  - left. apply is_nan_eq, is_nan_spec, E.
Qed.

End Float64Facts.

(** ** Facts on Series: the maximum and its first position *)

Module SeriesFacts.

Import Float64 Spec Float64Facts.

Lemma all_na_spec s : Series.all_na s = true <-> all_missing s.
Proof.
  unfold Series.all_na, all_missing. rewrite forallb_forall, Forall_forall.
  tauto.
Qed.

Lemma all_na_false s :
  Series.all_na s = false
  <-> exists x, In x s /\ PrimFloat.is_nan x = false.
Proof.
  unfold Series.all_na. split.
  - intros H. induction s as [|y s IH]; cbn in H; [discriminate|].
    destruct (PrimFloat.is_nan y) eqn:E; cbn in H.
    + destruct (IH H) as (x & Hx & Hd). exists x. cbn. auto.
    + exists y. cbn. auto.
  - intros (x & Hx & Hd). destruct (forallb PrimFloat.is_nan s) eqn:E;
      [|reflexivity].
    rewrite forallb_forall in E. rewrite (E x Hx) in Hd. discriminate.
Qed.

Lemma fill_none_missing s : none_missing (Series.fill_neg_inf s).
Proof.
  unfold none_missing, Series.fill_neg_inf. apply Forall_forall.
  intros y Hy. apply in_map_iff in Hy as (x & <- & _).
  destruct (PrimFloat.is_nan x) eqn:E; [reflexivity | exact E].
Qed.

Lemma fill_defined s x :
  In x s -> PrimFloat.is_nan x = false -> In x (Series.fill_neg_inf s).
Proof.
  intros Hx Hd. unfold Series.fill_neg_inf. apply in_map_iff.
  exists x. rewrite Hd. auto.
Qed.

Lemma fill_nth_error s i :
  nth_error (Series.fill_neg_inf s) i
  = option_map (fun x => if PrimFloat.is_nan x then neg_infinity else x)
               (nth_error s i).
Proof. unfold Series.fill_neg_inf. apply nth_error_map. Qed.

Lemma argmax_from_cons i best x s :
  Series.argmax_from i best (x :: s)
  = Series.argmax_from (S i) (scan_step i best x) s.
Proof. reflexivity. Qed.

Lemma nth_error_snoc_old {A} (p : list A) x j y :
  (j < length p)%nat ->
  nth_error (p ++ [x]) j = Some y -> nth_error p j = Some y.
Proof. intros Hj. rewrite nth_error_app1 by exact Hj. auto. Qed.

Lemma scan_step_ok p best x :
  none_missing p -> PrimFloat.is_nan x = false ->
  scanned p best -> scanned (p ++ [x]) (scan_step (length p) best x).
Proof.
  unfold scan_step, none_missing. rewrite Forall_forall.
  intros Hp Hx Hinv. destruct best as [[i b]|]; cbn in *.
  - destruct Hinv as (Hnth & Hb & Hle & Hfirst).
    assert (i < length p)%nat as Hi by (apply nth_error_Some; congruence).
    destruct (x <=? b)%float eqn:Hxb; cbn.
    + (* the running maximum stays, ties included *)
      repeat split; auto.
      * rewrite nth_error_app1; auto.
      * intros y Hy Hny. apply in_app_or in Hy as [Hy | [<- | []]]; auto.
      * intros j y Hj Hjy. apply (Hfirst j); auto.
        apply nth_error_snoc_old in Hjy; auto. lia.
    + (* a strictly larger value takes over *)
      pose proof (leb_false_ltb x b Hx Hb Hxb) as Hlt.
      repeat split; auto.
      * rewrite nth_error_app2, Nat.sub_diag; auto.
      * intros y Hy Hny. apply in_app_or in Hy as [Hy | [<- | []]].
        -- eapply leb_ltb_trans; eauto.
        -- apply leb_refl; auto.
      * intros j y Hj Hjy. apply nth_error_snoc_old in Hjy; auto.
        pose proof (nth_error_In _ _ Hjy) as Hy.
        eapply leb_ltb_asym; eauto.
  - (* the first value *)
    subst p. cbn. repeat split; auto.
    + intros y [<- | []] _. apply leb_refl; auto.
    + intros j y Hj. lia.
Qed.

Lemma argmax_from_ok s : forall p best,
  none_missing (p ++ s) -> scanned p best ->
  scanned (p ++ s) (Series.argmax_from (length p) best s).
Proof.
  induction s as [|x s IH]; intros p best Hd Hinv.
  - rewrite app_nil_r. exact Hinv.
  - rewrite argmax_from_cons.
    replace (p ++ x :: s) with ((p ++ [x]) ++ s) in *
      by (rewrite <- app_assoc; reflexivity).
    replace (S (length p)) with (length (p ++ [x]))
      by (rewrite length_app; cbn; lia).
    apply IH; [exact Hd|].
    unfold none_missing in Hd. apply Forall_app in Hd as [Hd _].
    apply Forall_app in Hd as [Hp Hx].
    apply scan_step_ok; auto. inversion Hx; auto.
Qed.

Lemma argmax_first_max s i v :
  none_missing s -> Series.argmax s = Some (i, v) -> first_max s i v.
Proof.
  intros Hd H. pose proof (argmax_from_ok s [] None Hd eq_refl) as Hs.
  cbn in Hs. unfold Series.argmax in H. rewrite H in Hs. exact Hs.
Qed.

Lemma argmax_none s : Series.argmax s = None -> s = [].
Proof.
  unfold Series.argmax. destruct s as [|x s]; [reflexivity|].
  rewrite argmax_from_cons. cbn. intros H. exfalso.
  revert H. generalize 1%nat, (O, x). clear.
  induction s as [|y s IH]; intros i [j b] H; [discriminate|].
  cbn in H. destruct (negb (y <=? b)%float); eapply IH; eauto.
Qed.

(** The position [idxmax] returns, and the value found there. *)
Lemma idxmax_ok s i :
  Series.idxmax s = Ok i ->
  Series.all_na s = false
  /\ exists v, Series.argmax (Series.fill_neg_inf s) = Some (i, v)
               /\ first_max (Series.fill_neg_inf s) i v.
Proof.
  unfold Series.idxmax. destruct (Series.all_na s); [discriminate|].
  destruct (Series.argmax (Series.fill_neg_inf s)) as [[j v]|] eqn:E;
    [|discriminate].
  intros H. injection H as ->. split; [reflexivity|]. exists v.
  split; [reflexivity|].
  apply argmax_first_max; [apply fill_none_missing | exact E].
Qed.

Lemma idxmax_defined s :
  Series.all_na s = false -> exists i, Series.idxmax s = Ok i.
Proof.
  intros Hna. unfold Series.idxmax. rewrite Hna.
  destruct (Series.argmax (Series.fill_neg_inf s)) as [[j v]|] eqn:E;
    [eauto|].
  exfalso. apply argmax_none in E. apply all_na_false in Hna as (x & Hx & _).
  unfold Series.fill_neg_inf in E. destruct s; [contradiction | discriminate].
Qed.

Lemma idxmax_all_missing s :
  all_missing s ->
  Series.idxmax s = Raise (ValueError "idxmax of an empty or all-NA Series").
Proof.
  intros H. apply all_na_spec in H. unfold Series.idxmax. rewrite H.
  reflexivity.
Qed.

(** The running maximum is one of the values and bounds them all. *)
Lemma fold_maximum s : forall x,
  none_missing (x :: s) ->
  In (fold_left Series.maximum s x) (x :: s)
  /\ (forall y, In y (x :: s) ->
                (y <=? fold_left Series.maximum s x)%float = true).
Proof.
  induction s as [|z s IH]; intros x Hd.
  - cbn. split; [auto|]. intros y [<- | []]. apply leb_refl.
    inversion Hd; auto.
  - cbn [fold_left]. inversion Hd as [|? ? Hx Hzs]; subst.
    inversion Hzs as [|? ? Hz Hs]; subst.
    assert (PrimFloat.is_nan (Series.maximum x z) = false) as Hm
        by (unfold Series.maximum; destruct (z <? x)%float; auto).
    destruct (IH (Series.maximum x z)) as [Hin Hle];
      [constructor; auto|].
    assert ((x <=? Series.maximum x z)%float = true
            /\ (z <=? Series.maximum x z)%float = true) as [Hxm Hzm].
    { unfold Series.maximum. destruct (z <? x)%float eqn:E.
      - split; [apply leb_refl; auto | apply ltb_leb; exact E].
      - split; [apply ltb_false_leb; auto | apply leb_refl; auto]. }
    split.
    + destruct Hin as [Hin | Hin]; [|cbn; auto].
      rewrite <- Hin. unfold Series.maximum.
      destruct (z <? x)%float; cbn; auto.
    + intros y [<- | [<- | Hy]].
      * eapply leb_trans; [exact Hxm | apply Hle; cbn; auto].
      * eapply leb_trans; [exact Hzm | apply Hle; cbn; auto].
      * apply Hle. cbn. auto.
Qed.

(** [max()] bounds every value that is not missing, and it is one of the
    filled values. *)
Lemma max_bounds s :
  Series.all_na s = false ->
  In (Series.max s) (Series.fill_neg_inf s)
  /\ (forall y, In y (Series.fill_neg_inf s) ->
                (y <=? Series.max s)%float = true).
Proof.
  intros Hna. unfold Series.max. rewrite Hna.
  pose proof (fill_none_missing s) as Hd.
  destruct (Series.fill_neg_inf s) as [|x f] eqn:E.
  - exfalso. apply all_na_false in Hna as (x & Hx & _).
    unfold Series.fill_neg_inf in E. destruct s; [contradiction | discriminate].
  - apply fold_maximum. exact Hd.
Qed.

Lemma max_all_missing s : all_missing s -> Series.max s = nan.
Proof.
  intros H. apply all_na_spec in H. unfold Series.max. rewrite H.
  reflexivity.
Qed.


Lemma max_infinity s :
  In infinity s -> Series.max s = infinity.
Proof.
  intros Hin.
  assert (Series.all_na s = false) as Hna
      by (apply all_na_false; exists infinity; auto).
  destruct (max_bounds s Hna) as [_ Hmax].
  apply infinity_leb. apply Hmax. apply fill_defined; auto.
Qed.

(** *** The compensated mean *)

Lemma kahan_compensated s : forall acc r,
  acc = compensated r ->
  fold_left Series.kahan_step s acc = compensated (rev s ++ r).
Proof.
  induction s as [|x s IH]; intros acc r Hacc.
  - exact Hacc.
  - cbn [fold_left rev]. rewrite <- app_assoc. cbn [app].
    apply IH. subst acc. cbn [compensated].
    destruct (compensated r) as [sumx c]. reflexivity.
Qed.

Lemma mean_mean_of_defined s : Series.mean s = mean_of_defined s.
Proof.
  unfold Series.mean, mean_of_defined, Series.dropna, notna, of_nat.
  destruct (filter (fun x => negb (PrimFloat.is_nan x)) s) as [|x d];
    [reflexivity|].
  unfold Series.kahan_sum.
  rewrite (kahan_compensated (x :: d) (0%float, 0%float) [] eq_refl),
    app_nil_r.
  reflexivity.
Qed.

End SeriesFacts.

(** ** Facts on the merge and on the derived columns *)

Module JoinFacts.

Import Float64 Spec.

Lemma ts_eqb_eq a b : ts_eqb a b = true <-> a = b.
Proof.
  unfold ts_eqb. rewrite !andb_true_iff, !Z.eqb_eq.
  destruct a, b; cbn. split.
  - intros [[-> ->] ->]. reflexivity.
  - intros H. injection H as -> -> ->. auto.
Qed.

Lemma on_date_state_eq c h :
  Frame.on_date_state c h = true <-> case_key c = hospital_key h.
Proof.
  unfold Frame.on_date_state, case_key, hospital_key.
  rewrite andb_true_iff, ts_eqb_eq, String.eqb_eq. split.
  - intros [-> ->]. reflexivity.
  - intros H. injection H as -> ->. auto.
Qed.

Lemma has_key_eq k r : has_key k r = true <-> joined_key r = k.
Proof.
  unfold has_key, joined_key.
  rewrite andb_true_iff, ts_eqb_eq, String.eqb_eq. destruct k; cbn. split.
  - intros [-> ->]. reflexivity.
  - intros H. injection H as -> ->. auto.
Qed.

Lemma has_key_false k r : has_key k r = false <-> joined_key r <> k.
Proof.
  rewrite <- has_key_eq. destruct (has_key k r); split; congruence.
Qed.

Lemma assign_columns_map rows :
  Frame.assign_columns rows
    (map (fun r => ts_year (m_date r)) rows)
    (map (fun r => ts_month (m_date r)) rows)
    (Series.mul_scalar
       (Series.truediv (map m_admitted_total rows) (map m_beds rows))
       100%float)
  = map derive rows.
Proof.
  induction rows as [|r rows IH]; cbn.
  - reflexivity.
  - f_equal. exact IH.
Qed.

Lemma joined_map cases hosp :
  App.joined cases hosp = map derive (Frame.merge cases hosp).
Proof. apply assign_columns_map. Qed.

(** The capacity column of every row is computed from the two fields of
    that row. *)
Lemma joined_capacity cases hosp r :
  In r (App.joined cases hosp) ->
  healthcare_capacity r
  = (of_int64 (admitted_total r) / of_int64 (beds r) * 100)%float.
Proof.
  rewrite joined_map, in_map_iff. intros (m & <- & _). reflexivity.
Qed.

Lemma joined_year_month cases hosp r :
  In r (App.joined cases hosp) ->
  year r = ts_year (date r) /\ month r = ts_month (date r).
Proof.
  rewrite joined_map, in_map_iff. intros (m & <- & _). auto.
Qed.

Lemma joined_cons c cases hosp :
  App.joined (c :: cases) hosp = matches hosp c ++ App.joined cases hosp.
Proof.
  rewrite !joined_map. cbn. rewrite map_app, map_map. reflexivity.
Qed.

Lemma joined_nil hosp : App.joined [] hosp = [].
Proof. reflexivity. Qed.

Lemma matches_key hosp c r :
  In r (matches hosp c) -> joined_key r = case_key c.
Proof.
  unfold matches. rewrite in_map_iff. intros (h & <- & _). reflexivity.
Qed.

Lemma matches_same_key hosp c k :
  case_key c = k -> filter (has_key k) (matches hosp c) = matches hosp c.
Proof.
  intros <-. apply filter_everything. intros r Hr. apply has_key_eq.
  eapply matches_key; eauto.
Qed.

Lemma matches_other_key hosp c k :
  case_key c <> k -> filter (has_key k) (matches hosp c) = [].
Proof.
  intros Hk. apply filter_nothing. intros r Hr. apply has_key_false.
  rewrite (matches_key _ _ _ Hr). exact Hk.
Qed.

(** No case row with the key, no joined record with it. *)
Lemma joined_key_absent cases hosp k :
  (forall c, In c cases -> case_key c <> k) ->
  filter (has_key k) (App.joined cases hosp) = [].
Proof.
  induction cases as [|c cases IH]; intros H.
  - reflexivity.
  - rewrite joined_cons, filter_app, matches_other_key, IH.
    + reflexivity.
    + intros c' Hc'. apply H. right. exact Hc'.
    + apply H. left. reflexivity.
Qed.

(** With one case row per key, the joined records of a key are those its
    case row contributes. *)
Lemma joined_key_present cases hosp c :
  NoDup (map case_key cases) -> In c cases ->
  filter (has_key (case_key c)) (App.joined cases hosp) = matches hosp c.
Proof.
  induction cases as [|c0 cases IH]; intros Hnd Hin; [contradiction|].
  cbn in Hnd. apply NoDup_cons_iff in Hnd as [Hfresh Hnd].
  rewrite joined_cons, filter_app. destruct Hin as [-> | Hin].
  - rewrite matches_same_key, joined_key_absent, app_nil_r; auto.
    intros c' Hc' Heq. apply Hfresh. rewrite <- Heq.
    apply in_map. exact Hc'.
  - rewrite matches_other_key, IH; auto.
    intros Heq. apply Hfresh. rewrite Heq. apply in_map. exact Hin.
Qed.

(** With one hospital row per key, a case row meets at most its own. *)
Lemma filter_unique_key hosp c h :
  NoDup (map hospital_key hosp) -> In h hosp ->
  case_key c = hospital_key h ->
  filter (Frame.on_date_state c) hosp = [h].
Proof.
  induction hosp as [|h0 hosp IH]; intros Hnd Hin Hk; [contradiction|].
  cbn in Hnd. apply NoDup_cons_iff in Hnd as [Hfresh Hnd]. cbn.
  destruct Hin as [-> | Hin].
  - replace (Frame.on_date_state c h) with true
      by (symmetry; apply on_date_state_eq; exact Hk).
    f_equal. apply filter_nothing. intros h' Hh'.
    destruct (Frame.on_date_state c h') eqn:E; [|reflexivity].
    exfalso. apply on_date_state_eq in E. apply Hfresh.
    rewrite <- Hk, E. apply in_map. exact Hh'.
  - destruct (Frame.on_date_state c h0) eqn:E.
    + exfalso. apply on_date_state_eq in E. apply Hfresh.
      rewrite <- E, Hk. apply in_map. exact Hin.
    + apply IH; auto.
Qed.

Lemma filter_no_match hosp c :
  (forall h, In h hosp -> hospital_key h <> case_key c) ->
  filter (Frame.on_date_state c) hosp = [].
Proof.
  intros H. apply filter_nothing. intros h Hh.
  destruct (Frame.on_date_state c h) eqn:E; [|reflexivity].
  exfalso. apply on_date_state_eq in E. apply (H h Hh). auto.
Qed.

End JoinFacts.


(** ** Facts on the monthly averages and on the pivot *)

Module GroupFacts.

Import Float64 Spec Float64Facts SeriesFacts.

Lemma ym_eqb_eq a b : Frame.ym_eqb a b = true <-> a = b.
Proof.
  unfold Frame.ym_eqb. rewrite andb_true_iff, !Z.eqb_eq.
  destruct a, b; cbn. split.
  - intros [-> ->]. reflexivity.
  - intros H. injection H as -> ->. auto.
Qed.

Lemma ym_ltb_spec a b :
  Frame.ym_ltb a b = true
  <-> (fst a < fst b \/ (fst a = fst b /\ snd a < snd b))%Z.
Proof.
  unfold Frame.ym_ltb.
  rewrite orb_true_iff, andb_true_iff, !Z.ltb_lt, Z.eqb_eq. tauto.
Qed.

Lemma ym_lt_trans a b c : ym_lt a b -> ym_lt b c -> ym_lt a c.
Proof. unfold ym_lt. rewrite !ym_ltb_spec. lia. Qed.

Lemma ym_lt_irrefl a : ~ ym_lt a a.
Proof. unfold ym_lt. rewrite ym_ltb_spec. lia. Qed.

Lemma ym_lt_total a b :
  Frame.ym_ltb a b = false -> Frame.ym_eqb a b = false -> ym_lt b a.
Proof.
  intros Hlt Heq. unfold ym_lt. apply ym_ltb_spec.
  assert (~ (fst a < fst b \/ (fst a = fst b /\ snd a < snd b))%Z) as Hn
      by (rewrite <- ym_ltb_spec; congruence).
  assert (a <> b) as Hne by (rewrite <- ym_eqb_eq; congruence).
  destruct a as [a1 a2], b as [b1 b2]; cbn in *.
  assert (a1 <> b1 \/ a2 <> b2)
    by (destruct (Z.eq_dec a1 b1); [right; congruence | left; auto]).
  lia.
Qed.

Lemma insert_key_In k k' ks :
  In k (Frame.insert_key k' ks) <-> k = k' \/ In k ks.
Proof.
  induction ks as [|k0 ks IH]; cbn.
  - intuition auto.
  - destruct (Frame.ym_ltb k' k0); [cbn; intuition auto|].
    destruct (Frame.ym_eqb k' k0) eqn:E.
    + apply ym_eqb_eq in E. subst k0. cbn. intuition auto.
    + cbn. rewrite IH. intuition auto.
Qed.

Lemma insert_key_increasing k ks :
  increasing ks -> increasing (Frame.insert_key k ks).
Proof.
  unfold increasing. induction 1 as [|k0 ks Hs IH Hall]; cbn.
  - repeat constructor.
  - destruct (Frame.ym_ltb k k0) eqn:Hlt.
    + constructor; [constructor; auto|].
      constructor; [exact Hlt|].
      rewrite Forall_forall in *. intros x Hx.
      eapply ym_lt_trans; [exact Hlt | auto].
    + destruct (Frame.ym_eqb k k0) eqn:Heq.
      * constructor; auto.
      * constructor; [exact IH|].
        rewrite Forall_forall in *. intros x Hx.
        apply insert_key_In in Hx as [-> | Hx]; auto.
        apply ym_lt_total; auto.
Qed.

Lemma increasing_NoDup ks : increasing ks -> NoDup ks.
Proof.
  induction 1 as [|k ks Hs IH Hall]; constructor; auto.
  intros Hin. rewrite Forall_forall in Hall.
  exact (ym_lt_irrefl k (Hall k Hin)).
Qed.

Lemma group_keys_increasing rows : increasing (Frame.group_keys rows).
Proof.
  induction rows as [|r rows IH]; cbn.
  - constructor.
  - apply insert_key_increasing. exact IH.
Qed.

Lemma group_keys_NoDup rows : NoDup (Frame.group_keys rows).
Proof. apply increasing_NoDup, group_keys_increasing. Qed.

Lemma group_keys_In rows k :
  In k (Frame.group_keys rows)
  <-> exists r, In r rows /\ (year r, month r) = k.
Proof.
  induction rows as [|r rows IH]; cbn.
  - split; [contradiction | intros (r & [] & _)].
  - rewrite insert_key_In, IH. split.
    + intros [-> | (r' & Hr' & Hk)]; eauto.
    + intros (r' & [<- | Hr'] & Hk); eauto.
Qed.

Lemma has_duplicates_NoDup ks : NoDup ks -> Frame.has_duplicates ks = false.
Proof.
  induction 1 as [|k ks Hfresh Hnd IH]; cbn; [reflexivity|].
  rewrite IH, orb_false_r.
  destruct (existsb (Frame.ym_eqb k) ks) eqn:E; [|reflexivity].
  apply existsb_exists in E as (k' & Hk' & Heq).
  apply ym_eqb_eq in Heq. subst k'. contradiction.
Qed.

Lemma monthly_keys rows :
  map Frame.ma_key (Frame.fillna (Frame.groupby_mean rows))
  = Frame.group_keys rows.
Proof.
  unfold Frame.fillna, Frame.groupby_mean. rewrite !map_map.
  erewrite map_ext; [apply map_id|]. intros [y m]. reflexivity.
Qed.

(** Every row of the table is the mean of its group, NaN replaced. *)
Lemma monthly_row rows row :
  In row (Frame.fillna (Frame.groupby_mean rows)) ->
  ma_healthcare_capacity row
  = Series.fillna0
      (Series.mean
         (map healthcare_capacity (Frame.group (Frame.ma_key row) rows))).
Proof.
  unfold Frame.fillna, Frame.groupby_mean. rewrite map_map, in_map_iff.
  intros ([y m] & <- & _). reflexivity.
Qed.

Lemma pivot_monthly rows :
  exists grid,
    Frame.pivot (Frame.fillna (Frame.groupby_mean rows)) = Ok grid.
Proof.
  unfold Frame.pivot.
  rewrite monthly_keys, (has_duplicates_NoDup _ (group_keys_NoDup rows)).
  eexists. reflexivity.
Qed.

(** *** The mean *)

Lemma dropna_all_missing s : all_missing s -> Series.dropna s = [].
Proof.
  intros H. apply filter_nothing. unfold all_missing in H.
  rewrite Forall_forall in H. intros x Hx. unfold notna.
  rewrite (H x Hx). reflexivity.
Qed.

Lemma mean_all_missing s : all_missing s -> Series.mean s = nan.
Proof.
  intros H. unfold Series.mean. rewrite (dropna_all_missing s H).
  reflexivity.
Qed.

Lemma fillna0_defined x : PrimFloat.is_nan (Series.fillna0 x) = false.
Proof.
  unfold Series.fillna0. destruct (PrimFloat.is_nan x) eqn:E; auto.
Qed.

End GroupFacts.


(** ** Facts on the pipeline and on the callback *)

Module AppFacts.

Import Float64 Spec Float64Facts SeriesFacts JoinFacts GroupFacts App.
Local Open Scope string_scope.

(** *** int64 sums *)

Lemma wrap_add_l a x : Int64.wrap (Int64.wrap a + x) = Int64.wrap (a + x).
Proof.
  unfold Int64.wrap. f_equal.
  replace ((a + 2 ^ 63) mod 2 ^ 64 - 2 ^ 63 + x + 2 ^ 63)%Z
    with ((a + 2 ^ 63) mod 2 ^ 64 + x)%Z by lia.
  rewrite Zplus_mod_idemp_l. f_equal. lia.
Qed.


Lemma sum_int64_from s : forall a,
  fold_left (fun acc x => Int64.wrap (acc + x)) s (Int64.wrap a)
  = Int64.wrap (a + Zsum s).
Proof.
  induction s as [|x s IH]; intros a; cbn [fold_left Zsum fold_right].
  - rewrite Z.add_0_r. reflexivity.
  - rewrite wrap_add_l, IH. f_equal. unfold Zsum. lia.
Qed.

Lemma sum_int64_wrap s : Series.sum_int64 s = Int64.wrap (Zsum s).
Proof.
  unfold Series.sum_int64. change 0%Z with (Int64.wrap 0) at 1.
  rewrite sum_int64_from. reflexivity.
Qed.

(** *** What a successful start-up computed *)

Lemma summarise_ok rows g :
  summarise rows = Ok g ->
  exists i v row,
    (Series.all_na (map healthcare_capacity rows) = false
     /\ first_max (Series.fill_neg_inf (map healthcare_capacity rows)) i v)
    /\ nth_error rows i = Some row
    /\ g = {| df := rows;
              max_capacity_state := state row;
              max_capacity_value :=
                Series.max (map healthcare_capacity rows);
              beds_utilized_by_covid :=
                (of_int64 (Series.sum_int64 (map beds_covid rows))
                 / of_int64 (Series.sum_int64 (map beds rows)) * 100)%float;
              heatmap_data := Frame.fillna (Frame.groupby_mean rows) |}.
Proof.
  unfold summarise, Frame.loc.
  destruct (Series.idxmax (map healthcare_capacity rows)) as [i|e] eqn:Hi;
    cbn; [|discriminate].
  apply idxmax_ok in Hi as (Hna & v & _ & Hmax).
  destruct (nth_error rows i) as [row|] eqn:Hrow; cbn; [|discriminate].
  intros H. injection H as <-. exists i, v, row. auto.
Qed.

(** A table without any defined ratio (an empty table, or beds and
    admitted patients all zero) stops the start-up at [idxmax]. *)
Lemma summarise_all_missing rows :
  all_missing (map healthcare_capacity rows) ->
  summarise rows = Raise (ValueError "idxmax of an empty or all-NA Series").
Proof.
  intros H. unfold summarise.
  rewrite (idxmax_all_missing _ H). reflexivity.
Qed.

Lemma summarise_df rows g : summarise rows = Ok g -> df g = rows.
Proof.
  intros H. apply summarise_ok in H as (i & v & row & _ & _ & ->).
  reflexivity.
Qed.

Lemma summarise_heatmap_data rows g :
  summarise rows = Ok g ->
  heatmap_data g = Frame.fillna (Frame.groupby_mean rows).
Proof.
  intros H. apply summarise_ok in H as (i & v & row & _ & _ & ->).
  reflexivity.
Qed.

(** *** Callbacks that only read *)

Lemma read_only_ret {A} (a : A) : read_only (ret a).
Proof. intros g. reflexivity. Qed.

Lemma read_only_read {A} (field : Globals -> A) : read_only (read field).
Proof. intros g. reflexivity. Qed.

Lemma read_only_call {A} (r : result A) : read_only (call r).
Proof. intros g. reflexivity. Qed.

Lemma read_only_bind {A B} (c : Callback A) (k : A -> Callback B) :
  read_only c -> (forall a, read_only (k a)) -> read_only (bind c k).
Proof.
  intros Hc Hk g. unfold bind. specialize (Hc g).
  destruct (c g) as [[a|e] g']; cbn in *; subst g'.
  - apply Hk.
  - reflexivity.
Qed.

Lemma update_graph_read_only choice selected_state :
  read_only (update_graph choice selected_state).
Proof.
  unfold update_graph.
  repeat (apply read_only_bind; [|intros ?]);
    auto using read_only_read, read_only_call, read_only_ret.
Qed.

(** *** What the callback returns *)

Lemma update_graph_returns choice selected_state g :
  fst (update_graph choice selected_state g)
  = rbind (Frame.sample choice 100 (filtered g selected_state))
      (fun scatter_sample =>
         rbind (Frame.pivot (heatmap_data g))
           (fun grid =>
              Ok (line_chart_of (filtered g selected_state),
                  Chart.px_scatter scatter_sample
                    (String.append "Healthcare Capacity vs New Cases in "
                                   selected_state),
                  Chart.px_imshow grid))).
Proof.
  unfold update_graph, bind, read, call, ret, filtered. cbn.
  destruct (Frame.sample choice 100 _) as [smp|e]; cbn; [|reflexivity].
  destruct (Frame.pivot (heatmap_data g)) as [grid|e]; reflexivity.
Qed.

Lemma update_graph_heatmap choice selected_state g figs :
  fst (update_graph choice selected_state g) = Ok figs ->
  exists grid,
    Frame.pivot (heatmap_data g) = Ok grid
    /\ snd figs = Chart.px_imshow grid.
Proof.
  rewrite update_graph_returns.
  destruct (Frame.sample choice 100 _) as [smp|e]; cbn; [|discriminate].
  destruct (Frame.pivot (heatmap_data g)) as [grid|e]; cbn; [|discriminate].
  intros H. injection H as <-. exists grid. auto.
Qed.

(** *** The scatter sample *)

Lemma take_length {A} (rows : list A) positions :
  Forall (fun i => (i < length rows)%nat) positions ->
  exists out,
    Frame.take rows positions = Ok out /\ length out = length positions.
Proof.
  induction 1 as [|i positions Hi _ (out & Hout & Hlen)]; cbn.
  - exists []. auto.
  - apply nth_error_Some in Hi.
    destruct (nth_error rows i) as [r|]; [|contradiction].
    rewrite Hout. cbn. exists (r :: out). cbn. auto.
Qed.

Lemma sample_enough_rows {A} choice n (rows : list A) :
  draws_positions choice -> (n <= length rows)%nat ->
  exists out,
    Frame.sample choice n rows = Ok out /\ length out = n.
Proof.
  intros Hc Hn. unfold Frame.sample.
  replace ((length rows =? 0)%nat && negb (n =? 0)%nat) with false.
  2:{ symmetry. apply andb_false_iff.
      destruct (Nat.eq_dec (length rows) 0) as [E | E].
      - right. apply negb_false_iff, Nat.eqb_eq. lia.
      - left. apply Nat.eqb_neq. exact E. }
  replace (n <=? length rows)%nat with true
    by (symmetry; apply Nat.leb_le; exact Hn).
  destruct (Hc _ _ Hn) as [Hlen Hall].
  destruct (take_length rows _ Hall) as (out & Hout & Hlen').
  exists out. split; [exact Hout | congruence].
Qed.

Lemma sample_too_few_rows {A} choice n (rows : list A) :
  (0 < length rows < n)%nat ->
  Frame.sample choice n rows = Raise Frame.larger_sample_than_population.
Proof.
  intros Hn. unfold Frame.sample.
  replace (length rows =? 0)%nat with false
    by (symmetry; apply Nat.eqb_neq; lia).
  replace (n <=? length rows)%nat with false
    by (symmetry; apply Nat.leb_gt; lia).
  reflexivity.
Qed.

Lemma sample_no_rows {A} choice n :
  (0 < n)%nat ->
  Frame.sample choice n (@nil A) = Raise Frame.empty_population.
Proof.
  intros Hn. unfold Frame.sample. cbn.
  replace (n =? 0)%nat with false by (symmetry; apply Nat.eqb_neq; lia).
  reflexivity.
Qed.

Lemma take_raises {A} (rows : list A) positions e :
  Frame.take rows positions = Raise e -> e = IndexError.
Proof.
  induction positions as [|i positions IH]; cbn; [discriminate|].
  destruct (nth_error rows i) as [r|]; [|congruence].
  destruct (Frame.take rows positions) as [out|e']; cbn; [discriminate|].
  intros H. injection H as <-. apply IH. reflexivity.
Qed.

Lemma sample_raises {A} choice n (rows : list A) e :
  Frame.sample choice n rows = Raise e ->
  e = IndexError \/ e = Frame.larger_sample_than_population
  \/ e = Frame.empty_population.
Proof.
  unfold Frame.sample.
  destruct ((length rows =? 0)%nat && negb (n =? 0)%nat).
  - intros H. injection H as <-. auto.
  - destruct (n <=? length rows)%nat.
    + intros H. left. eapply take_raises; eauto.
    + intros H. injection H as <-. auto.
Qed.

(** With at least 100 rows for the state the scatter plot shows exactly
    100 points. *)
Lemma update_graph_hundred_points choice selected_state rows g :
  draws_positions choice ->
  summarise rows = Ok g ->
  (100 <= length (filtered g selected_state))%nat ->
  exists figs,
    fst (update_graph choice selected_state g) = Ok figs
    /\ length (Chart.scatter_x (snd (fst figs))) = 100%nat.
Proof.
  intros Hc Hg Hn. rewrite update_graph_returns.
  destruct (sample_enough_rows choice 100 _ Hc Hn) as (smp & -> & Hlen). cbn.
  rewrite (summarise_heatmap_data rows g Hg).
  destruct (pivot_monthly rows) as [grid ->]. cbn.
  eexists. split; [reflexivity|]. cbn. rewrite length_map. exact Hlen.
Qed.

(** With fewer than 100 rows for the state, but at least one, the
    callback raises. *)
Lemma update_graph_too_few_rows choice selected_state g :
  (0 < length (filtered g selected_state) < 100)%nat ->
  fst (update_graph choice selected_state g)
  = Raise Frame.larger_sample_than_population.
Proof.
  intros Hn. rewrite update_graph_returns, sample_too_few_rows; auto.
Qed.

(** With no row for the state the generator has nothing to draw from. *)
Lemma update_graph_no_rows choice selected_state g :
  filtered g selected_state = [] ->
  fst (update_graph choice selected_state g) = Raise Frame.empty_population.
Proof.
  intros E. rewrite update_graph_returns, E, sample_no_rows by lia.
  reflexivity.
Qed.

End AppFacts.

(** ** The properties of the dashboard *)

Section Dashboard.

Import Float64 Spec Float64Facts SeriesFacts JoinFacts GroupFacts AppFacts App.
Local Open Scope string_scope.

(** C1, as the code has it: for every joined record whose [beds] is 0 the
    capacity ratio is computed without an exception and is NaN or an
    infinity, never a finite number; it is NaN when [admitted_total] is 0
    and +infinity when it is 5; nothing normalises it, and a +infinity
    ratio is the summary maximum. *)
Theorem zero_beds_ratio_not_normalised
    (cases : list CaseRecord) (hosp : list HospitalRecord) (r : JoinedRecord) :
  In r (joined cases hosp) ->
  beds r = 0%Z ->
  non_finite (healthcare_capacity r)
  /\ (admitted_total r = 0%Z -> healthcare_capacity r = nan)
  /\ (admitted_total r = 5%Z -> healthcare_capacity r = infinity)
  /\ (healthcare_capacity r = infinity ->
      Series.max (map healthcare_capacity (joined cases hosp)) = infinity).
Proof.
  intros Hr Hbeds. rewrite (joined_capacity cases hosp r Hr), Hbeds.
  change (of_int64 0) with 0%float.
  repeat split.
  - apply div_zero_mul_100.
  - intros ->. reflexivity.
  - intros ->. reflexivity.
  - intros Hinf. apply max_infinity. apply in_map_iff. exists r. split; auto.
    rewrite (joined_capacity cases hosp r Hr), Hbeds. exact Hinf.
Qed.

Lemma zero_beds_ratio_not_normalised_witness :
  In Fixtures.zero_beds_row
     (joined Fixtures.zero_beds_cases Fixtures.zero_beds_hospital)
  /\ beds Fixtures.zero_beds_row = 0%Z
  /\ healthcare_capacity Fixtures.zero_beds_row = infinity
  /\ Series.max
       (map healthcare_capacity
            (joined Fixtures.zero_beds_cases Fixtures.zero_beds_hospital))
     = infinity.
Proof.
  assert (In Fixtures.zero_beds_row
             (joined Fixtures.zero_beds_cases Fixtures.zero_beds_hospital))
    as Hin by (left; reflexivity).
  assert (beds Fixtures.zero_beds_row = 0%Z) as Hbeds by reflexivity.
  destruct (zero_beds_ratio_not_normalised
              Fixtures.zero_beds_cases Fixtures.zero_beds_hospital
              Fixtures.zero_beds_row Hin Hbeds) as (_ & _ & H5 & Hmax).
  split; [exact Hin|]. split; [exact Hbeds|].
  split; [exact (H5 eq_refl) | exact (Hmax (H5 eq_refl))].
Defined.

(** C1, as the spec states it, fails on the literal row
    {beds: 0, admitted_total: 5}: the ratio is +infinity, the record stays
    in the table, and +infinity is both the summary maximum and the
    average of its month. *)
Lemma zero_beds_literal_row_propagates :
  startup Fixtures.zero_beds_cases Fixtures.zero_beds_hospital
  = Ok {| df := [ Fixtures.zero_beds_row ];
          max_capacity_state := "Selangor";
          max_capacity_value := infinity;
          beds_utilized_by_covid := nan;
          heatmap_data :=
            [ {| ma_year := 2021; ma_month := 1;
                 ma_healthcare_capacity := infinity |} ] |}.
Proof. vm_compute. reflexivity. Qed.

(** C2, the failing input: a state with three joined rows.  The table
    loads, the selection has three rows, and the callback raises instead
    of drawing the three of them, whatever the generator would draw. *)
Theorem scatter_sample_three_rows_raises (choice : nat -> nat -> list nat) :
  exists g,
    startup Fixtures.perlis_cases Fixtures.perlis_hospital = Ok g
    /\ length (filtered g "Perlis") = 3%nat
    /\ fst (update_graph choice "Perlis" g)
       = Raise Frame.larger_sample_than_population.
Proof.
  eexists. split; [vm_compute; reflexivity|].
  split; [reflexivity|].
  apply update_graph_too_few_rows. cbn. lia.
Qed.

(** C3: with at most one row per (date, state) in each table, a pair
    present in both tables has exactly one joined record, which carries
    the fields of its two rows, and a row whose pair is absent from the
    other table has no joined record. *)
Theorem merge_inner_join
    (cases : list CaseRecord) (hosp : list HospitalRecord) :
  NoDup (map case_key cases) ->
  NoDup (map hospital_key hosp) ->
  (forall c h, In c cases -> In h hosp -> case_key c = hospital_key h ->
     filter (has_key (case_key c)) (joined cases hosp) = [ joined_row c h ])
  /\ (forall c, In c cases ->
        (forall h, In h hosp -> hospital_key h <> case_key c) ->
        filter (has_key (case_key c)) (joined cases hosp) = [])
  /\ (forall h, In h hosp ->
        (forall c, In c cases -> case_key c <> hospital_key h) ->
        filter (has_key (hospital_key h)) (joined cases hosp) = []).
Proof.
  intros Hc Hh. repeat split.
  - intros c h Hinc Hinh Hk.
    rewrite (joined_key_present cases hosp c Hc Hinc). unfold matches.
    rewrite (filter_unique_key hosp c h Hh Hinh Hk). reflexivity.
  - intros c Hinc Hnone.
    rewrite (joined_key_present cases hosp c Hc Hinc). unfold matches.
    rewrite (filter_no_match hosp c Hnone). reflexivity.
  - intros h Hinh Hnone. apply joined_key_absent. exact Hnone.
Qed.

Lemma merge_inner_join_witness :
  filter (has_key (Fixtures.jan5, "Penang"))
         (joined Fixtures.cases_state_df Fixtures.hospital_df)
  = [ {| date := Fixtures.jan5; state := "Penang"; cases_new := 3;
         beds := 100; beds_covid := 10; admitted_total := 40;
         year := 2021; month := 1; healthcare_capacity := 40 |} ]
  /\ filter (has_key (Fixtures.feb5, "Johor"))
            (joined Fixtures.cases_state_df Fixtures.hospital_df) = []
  /\ filter (has_key (Fixtures.feb5, "Kedah"))
            (joined Fixtures.cases_state_df Fixtures.hospital_df) = [].
Proof.
  assert (NoDup (map case_key Fixtures.cases_state_df)) as Hc.
  { repeat constructor; cbn; intuition discriminate. }
  assert (NoDup (map hospital_key Fixtures.hospital_df)) as Hh.
  { repeat constructor; cbn; intuition discriminate. }
  destruct (merge_inner_join Fixtures.cases_state_df Fixtures.hospital_df
              Hc Hh) as (Hboth & Hleft & Hright).
  split; [|split].
  - apply (Hboth (mkCase Fixtures.jan5 "Penang" 3)
                 (mkHospital Fixtures.jan5 "Penang" 100 10 40)).
    + cbn. auto.
    + cbn. auto.
    + reflexivity.
  - apply (Hleft (mkCase Fixtures.feb5 "Johor" 1)).
    + cbn. auto 6.
    + cbn. intuition (subst; discriminate).
  - apply (Hright (mkHospital Fixtures.feb5 "Kedah" 10 1 1)).
    + cbn. auto 6.
    + cbn. intuition (subst; discriminate).
Defined.

(** C4, as the code has it: the capacity ratio of a joined record with
    nonzero [beds] is its [admitted_total] divided by its [beds], times
    100, in float64: the quotient of the two converted fields is rounded
    to binary64, then its product by 100 is. *)
Theorem capacity_ratio_formula
    (cases : list CaseRecord) (hosp : list HospitalRecord) (r : JoinedRecord) :
  In r (joined cases hosp) ->
  beds r <> 0%Z ->
  healthcare_capacity r
  = (of_int64 (admitted_total r) / of_int64 (beds r) * 100)%float
  /\ Prim2SF (healthcare_capacity r)
     = SF64mul (SF64div (Prim2SF (of_int64 (admitted_total r)))
                        (Prim2SF (of_int64 (beds r))))
               (Prim2SF 100).
Proof.
  intros Hr _. rewrite (joined_capacity cases hosp r Hr).
  split; [reflexivity|]. rewrite mul_spec, div_spec. reflexivity.
Qed.

Lemma capacity_ratio_formula_witness :
  In Fixtures.seven_row (joined Fixtures.seven_cases Fixtures.seven_hospital)
  /\ beds Fixtures.seven_row <> 0%Z
  /\ healthcare_capacity Fixtures.seven_row
     = (of_int64 7 / of_int64 100 * 100)%float.
Proof.
  assert (In Fixtures.seven_row
             (joined Fixtures.seven_cases Fixtures.seven_hospital)) as Hin
      by (vm_compute; auto).
  assert (beds Fixtures.seven_row <> 0%Z) as Hbeds by discriminate.
  split; [exact Hin|]. split; [exact Hbeds|].
  exact (proj1 (capacity_ratio_formula Fixtures.seven_cases
                  Fixtures.seven_hospital Fixtures.seven_row Hin Hbeds)).
Defined.

(** C4, as the spec states it, fails for 7 admitted patients and 100
    beds: in exact arithmetic 7 / 100 * 100 is 7, which float64 holds, but
    the ratio of the record is the next float64 above 7. *)
Lemma capacity_ratio_is_rounded :
  In Fixtures.seven_row (joined Fixtures.seven_cases Fixtures.seven_hospital)
  /\ (admitted_total Fixtures.seven_row * 100
      = 7 * beds Fixtures.seven_row)%Z
  /\ healthcare_capacity Fixtures.seven_row = next_up (of_int64 7)
  /\ healthcare_capacity Fixtures.seven_row <> of_int64 7.
Proof.
  split; [vm_compute; auto|]. split; [reflexivity|]. split; [reflexivity|].
  intros H. apply Leibniz.eqb_spec in H. vm_compute in H. discriminate H.
Qed.




(** C6, as the code has it: after a successful start-up the monthly
    table has exactly one row per (year, month) pair of the joined
    records; the value of a row is the mean of the capacity ratios of the
    records of that year and month that are not NaN (their compensated
    float64 sum over their number), and it is exactly 0 when that mean is
    NaN, as it is for a group whose ratios are all NaN; it is never
    NaN. *)
Theorem monthly_average_table
    (cases : list CaseRecord) (hosp : list HospitalRecord) (g : Globals) :
  startup cases hosp = Ok g ->
  NoDup (map Frame.ma_key (heatmap_data g))
  /\ (forall k, In k (map Frame.ma_key (heatmap_data g))
                <-> exists r, In r (joined cases hosp)
                              /\ (year r, month r) = k)
  /\ (forall row ratios,
        In row (heatmap_data g) ->
        ratios
        = map healthcare_capacity
              (filter (fun r => (year r =? ma_year row)%Z
                                && (month r =? ma_month row)%Z)
                      (joined cases hosp)) ->
        (PrimFloat.is_nan (mean_of_defined ratios) = false ->
         ma_healthcare_capacity row = mean_of_defined ratios)
        /\ (PrimFloat.is_nan (mean_of_defined ratios) = true ->
            ma_healthcare_capacity row = 0%float)
        /\ (all_missing ratios -> ma_healthcare_capacity row = 0%float)
        /\ PrimFloat.is_nan (ma_healthcare_capacity row) = false).
Proof.
  unfold startup. intros Hg.
  rewrite (summarise_heatmap_data _ _ Hg), monthly_keys.
  split; [apply group_keys_NoDup|].
  split; [apply group_keys_In|].
  intros row ratios Hrow ->. rewrite (monthly_row _ _ Hrow).
  change (Frame.group (Frame.ma_key row) (joined cases hosp))
    with (filter (fun r => (year r =? ma_year row)%Z
                           && (month r =? ma_month row)%Z)
                 (joined cases hosp)).
  rewrite mean_mean_of_defined. unfold Series.fillna0. repeat split.
  - intros ->. reflexivity.
  - intros ->. reflexivity.
  - intros Hall. rewrite <- mean_mean_of_defined, (mean_all_missing _ Hall).
    reflexivity.
  - destruct (PrimFloat.is_nan (mean_of_defined _)) eqn:E; auto.
Qed.

Lemma monthly_average_table_witness :
  startup Fixtures.tenth_cases Fixtures.tenth_hospital
  = Ok Fixtures.tenth_globals
  /\ heatmap_data Fixtures.tenth_globals
     = [ {| ma_year := 2021; ma_month := 1;
            ma_healthcare_capacity := 0x1.999999999999ap-4 |};
         {| ma_year := 2021; ma_month := 2; ma_healthcare_capacity := 40 |} ]
  /\ NoDup (map Frame.ma_key (heatmap_data Fixtures.tenth_globals)).
Proof.
  assert (startup Fixtures.tenth_cases Fixtures.tenth_hospital
          = Ok Fixtures.tenth_globals) as Hg by (vm_compute; reflexivity).
  split; [exact Hg|]. split; [reflexivity|].
  exact (proj1 (monthly_average_table Fixtures.tenth_cases
                  Fixtures.tenth_hospital Fixtures.tenth_globals Hg)).
Defined.

(** C6, as the spec states it, fails on the month of the literal row
    {beds: 0, admitted_total: 5}: the only ratio of the month comes from
    a zero denominator, and the value of the month is +infinity, not 0. *)
Lemma monthly_average_keeps_infinity :
  exists g,
    startup Fixtures.zero_beds_cases Fixtures.zero_beds_hospital = Ok g
    /\ map (fun r => (beds r, admitted_total r, healthcare_capacity r)) (df g)
       = [ (0%Z, 5%Z, infinity) ]
    /\ heatmap_data g
       = [ {| ma_year := 2021; ma_month := 1;
              ma_healthcare_capacity := infinity |} ]
    /\ infinity <> 0%float.
Proof.
  eexists. split; [vm_compute; reflexivity|].
  split; [reflexivity|]. split; [reflexivity|].
  intros H. apply Leibniz.eqb_spec in H. vm_compute in H. discriminate H.
Qed.



(** C8: the heatmap the callback returns for one selection is the heatmap
    it returns for any other: it is the pivot of the monthly table. *)
Theorem heatmap_independent_of_selection
    (choice : nat -> nat -> list nat) (g : Globals)
    (s1 s2 : string) (figs1 figs2 : Figures) :
  fst (update_graph choice s1 g) = Ok figs1 ->
  fst (update_graph choice s2 g) = Ok figs2 ->
  snd figs1 = snd figs2
  /\ exists grid,
      Frame.pivot (heatmap_data g) = Ok grid
      /\ snd figs1 = Chart.px_imshow grid.
Proof.
  intros H1 H2.
  destruct (update_graph_heatmap _ _ _ _ H1) as (grid1 & Hp1 & ->).
  destruct (update_graph_heatmap _ _ _ _ H2) as (grid2 & Hp2 & ->).
  rewrite Hp1 in Hp2. injection Hp2 as <-.
  split; [reflexivity|]. exists grid1. auto.
Qed.

Lemma heatmap_independent_of_selection_witness :
  exists figs1 figs2,
    fst (update_graph Fixtures.first_positions "Selangor"
           Fixtures.long_globals) = Ok figs1
    /\ fst (update_graph Fixtures.first_positions "Penang"
              Fixtures.long_globals) = Ok figs2
    /\ snd figs1 = snd figs2.
Proof.
  eexists. eexists.
  split; [vm_compute; reflexivity|].
  split; [vm_compute; reflexivity|].
  eapply (heatmap_independent_of_selection Fixtures.first_positions
            Fixtures.long_globals "Selangor" "Penang");
    vm_compute; reflexivity.
Defined.

(** C9: the callback leaves the globals (the joined table, the monthly
    table and the three card values) as they were, whether it returns the
    three figures or raises. *)
Theorem update_graph_preserves_globals
    (choice : nat -> nat -> list nat) (selected_state : string) (g : Globals) :
  snd (update_graph choice selected_state g) = g.
Proof. apply update_graph_read_only. Qed.

(** C10: after a successful start-up the monthly table has no two rows
    with the same (year, month) pair, its pivot succeeds, and for no
    selection does the callback raise the duplicate-entry error. *)
Theorem pivot_never_duplicate
    (cases : list CaseRecord) (hosp : list HospitalRecord) (g : Globals) :
  startup cases hosp = Ok g ->
  Frame.has_duplicates (map Frame.ma_key (heatmap_data g)) = false
  /\ (exists grid, Frame.pivot (heatmap_data g) = Ok grid)
  /\ (forall choice selected_state,
        fst (update_graph choice selected_state g)
        <> Raise Frame.duplicate_entries).
Proof.
  unfold startup. intros Hg.
  rewrite (summarise_heatmap_data _ _ Hg), monthly_keys.
  split; [apply has_duplicates_NoDup, group_keys_NoDup|].
  split; [apply pivot_monthly|].
  intros choice selected_state. rewrite update_graph_returns.
  rewrite (summarise_heatmap_data _ _ Hg).
  destruct (pivot_monthly (joined cases hosp)) as [grid ->].
  destruct (Frame.sample choice 100 (filtered g selected_state))
    as [smp|e] eqn:Hs; cbn; [discriminate|].
  apply sample_raises in Hs as [-> | [-> | ->]]; discriminate.
Qed.

Lemma pivot_never_duplicate_witness :
  startup Fixtures.cases_state_df Fixtures.hospital_df = Ok Fixtures.globals
  /\ Frame.pivot (heatmap_data Fixtures.globals)
     = Ok {| Frame.grid_index := [2021%Z];
             Frame.grid_columns := [1%Z; 2%Z];
             Frame.grid_values := [[40%float; 25%float]] |}
  /\ exists grid, Frame.pivot (heatmap_data Fixtures.globals) = Ok grid.
Proof.
  assert (startup Fixtures.cases_state_df Fixtures.hospital_df
          = Ok Fixtures.globals) as Hg by (vm_compute; reflexivity).
  split; [exact Hg|]. split; [reflexivity|].
  exact (proj1 (proj2 (pivot_never_duplicate Fixtures.cases_state_df
                         Fixtures.hospital_df Fixtures.globals Hg))).
Defined.

End Dashboard.

(** ** Facts on the dropdown options *)

Module UniqueFacts.

Import Spec.

Lemma existsb_eqb_In x seen :
  existsb (String.eqb x) seen = true <-> In x seen.
Proof.
  rewrite existsb_exists. split.
  - intros (y & Hy & E). apply String.eqb_eq in E. subst y. exact Hy.
  - intros H. exists x. split; [exact H | apply String.eqb_refl].
Qed.

Lemma existsb_eqb_not_In x seen :
  existsb (String.eqb x) seen = false <-> ~ In x seen.
Proof.
  rewrite <- existsb_eqb_In. destruct (existsb (String.eqb x) seen);
    split; congruence.
Qed.

Lemma unique_from_In s : forall seen x,
  In x (Series.unique_from seen s) <-> In x s /\ ~ In x seen.
Proof.
  induction s as [|y s IH]; intros seen x; cbn.
  - tauto.
  - destruct (existsb (String.eqb y) seen) eqn:E.
    + apply existsb_eqb_In in E. rewrite IH. split.
      * intros [Hs Hn]. auto.
      * intros [[-> | Hs] Hn]; [contradiction | auto].
    + apply existsb_eqb_not_In in E. cbn. rewrite IH. cbn. split.
      * intros [-> | [Hs Hn]]; [auto | tauto].
      * intros [[-> | Hs] Hn]; [auto|].
        destruct (string_dec y x) as [-> | Hne]; [auto | right; tauto].
Qed.

Lemma unique_from_NoDup s : forall seen, NoDup (Series.unique_from seen s).
Proof.
  induction s as [|y s IH]; intros seen; cbn.
  - constructor.
  - destruct (existsb (String.eqb y) seen); [apply IH|].
    constructor; [|apply IH].
    rewrite unique_from_In. cbn. tauto.
Qed.

Lemma first_index_cons_other x y s :
  x <> y -> first_index x (y :: s) = option_map S (first_index x s).
Proof.
  intros Hne. cbn. destruct (String.eqb x y) eqn:E; [|reflexivity].
  apply String.eqb_eq in E. contradiction.
Qed.

Lemma first_index_In x s : In x s -> exists p, first_index x s = Some p.
Proof.
  induction s as [|y s IH]; [contradiction|]. intros Hin. cbn.
  destruct (String.eqb x y) eqn:E; [eauto|].
  apply String.eqb_neq in E. destruct Hin as [-> | Hin]; [contradiction|].
  destruct (IH Hin) as [p ->]. cbn. eauto.
Qed.

(** The values come out in the order of their first occurrences. *)
Lemma unique_from_order s : forall seen i j a b,
  (i < j)%nat ->
  nth_error (Series.unique_from seen s) i = Some a ->
  nth_error (Series.unique_from seen s) j = Some b ->
  exists p q,
    first_index a s = Some p /\ first_index b s = Some q /\ (p < q)%nat.
Proof.
  induction s as [|y s IH]; intros seen i j a b Hij Ha Hb.
  - cbn in Ha. destruct i; discriminate.
  - cbn in Ha, Hb. destruct (existsb (String.eqb y) seen) eqn:E.
    + apply existsb_eqb_In in E.
      assert (a <> y) as Hay.
      { intros ->. apply nth_error_In, unique_from_In in Ha. tauto. }
      assert (b <> y) as Hby.
      { intros ->. apply nth_error_In, unique_from_In in Hb. tauto. }
      destruct (IH seen i j a b Hij Ha Hb) as (p & q & Hp & Hq & Hpq).
      exists (S p), (S q).
      rewrite (first_index_cons_other a y s Hay),
        (first_index_cons_other b y s Hby), Hp, Hq. cbn.
      repeat split; auto. lia.
    + destruct j as [|j]; [lia|]. cbn in Hb.
      assert (b <> y) as Hby.
      { intros ->. apply nth_error_In, unique_from_In in Hb. cbn in Hb.
        tauto. }
      destruct i as [|i].
      * cbn in Ha. injection Ha as <-.
        destruct (first_index_In b s) as [q Hq].
        { apply nth_error_In, unique_from_In in Hb. tauto. }
        exists O, (S q). rewrite (first_index_cons_other b y s Hby), Hq.
        cbn. rewrite String.eqb_refl. repeat split; auto. lia.
      * cbn in Ha.
        assert (a <> y) as Hay.
        { intros ->. apply nth_error_In, unique_from_In in Ha. cbn in Ha.
          tauto. }
        destruct (IH (y :: seen) i j a b) as (p & q & Hp & Hq & Hpq);
          auto; [lia|].
        exists (S p), (S q).
        rewrite (first_index_cons_other a y s Hay),
        (first_index_cons_other b y s Hby), Hp, Hq. cbn.
        repeat split; auto. lia.
Qed.

Lemma filter_state_count s rows :
  length (filter (fun r => String.eqb (state r) s) rows)
  = count_occ string_dec (map state rows) s.
Proof.
  induction rows as [|r rows IH]; cbn; [reflexivity|].
  destruct (string_dec (state r) s) as [E | E].
  - apply String.eqb_eq in E. rewrite E. cbn. f_equal. exact IH.
  - apply String.eqb_neq in E. rewrite E. exact IH.
Qed.

End UniqueFacts.

(** ** Facts on the pivoted grid *)

Module PivotFacts.

Import Float64 Spec Float64Facts SeriesFacts GroupFacts.

Lemma insert_label_In z z' zs :
  In z (Frame.insert_label z' zs) <-> z = z' \/ In z zs.
Proof.
  induction zs as [|z0 zs IH]; cbn.
  - intuition auto.
  - destruct (z' <? z0)%Z; [cbn; intuition auto|].
    destruct (z' =? z0)%Z eqn:E.
    + apply Z.eqb_eq in E. subst z0. cbn. intuition auto.
    + cbn. rewrite IH. intuition auto.
Qed.

Lemma labels_In z zs : In z (Frame.labels zs) <-> In z zs.
Proof.
  induction zs as [|z0 zs IH]; cbn; [tauto|].
  rewrite insert_label_In, IH. intuition auto.
Qed.

Lemma insert_label_sorted z zs :
  StronglySorted Z.lt zs -> StronglySorted Z.lt (Frame.insert_label z zs).
Proof.
  induction 1 as [|z0 zs Hs IH Hall]; cbn.
  - repeat constructor.
  - destruct (z <? z0)%Z eqn:Hlt.
    + apply Z.ltb_lt in Hlt. constructor; [constructor; auto|].
      constructor; [exact Hlt|].
      rewrite Forall_forall in *. intros x Hx. specialize (Hall x Hx). lia.
    + apply Z.ltb_ge in Hlt. destruct (z =? z0)%Z eqn:Heq.
      * constructor; auto.
      * apply Z.eqb_neq in Heq. constructor; [exact IH|].
        rewrite Forall_forall in *. intros x Hx.
        apply insert_label_In in Hx as [-> | Hx]; [lia | auto].
Qed.

Lemma labels_sorted zs : StronglySorted Z.lt (Frame.labels zs).
Proof.
  induction zs as [|z zs IH]; cbn.
  - constructor.
  - apply insert_label_sorted. exact IH.
Qed.

Lemma position_In z zs :
  In z zs -> exists i, position z zs = Some i /\ nth_error zs i = Some z.
Proof.
  induction zs as [|z0 zs IH]; [contradiction|]. intros Hin. cbn.
  destruct (z =? z0)%Z eqn:E.
  - apply Z.eqb_eq in E. subst z0. exists O. auto.
  - apply Z.eqb_neq in E. destruct Hin as [-> | Hin]; [contradiction|].
    destruct (IH Hin) as (i & -> & Hi). exists (S i). auto.
Qed.

Lemma position_not_In z zs : ~ In z zs -> position z zs = None.
Proof.
  induction zs as [|z0 zs IH]; [reflexivity|]. cbn. intros Hn.
  destruct (z =? z0)%Z eqn:E.
  - apply Z.eqb_eq in E. subst z0. tauto.
  - rewrite IH by tauto. reflexivity.
Qed.

Lemma has_duplicates_false_NoDup ks :
  Frame.has_duplicates ks = false -> NoDup ks.
Proof.
  induction ks as [|k ks IH]; cbn; [constructor|].
  intros H. apply orb_false_iff in H as [Hk Hks]. constructor; auto.
  intros Hin.
  assert (existsb (Frame.ym_eqb k) ks = true) as Ht; [|congruence].
  apply existsb_exists. exists k. split; [exact Hin|].
  apply ym_eqb_eq. reflexivity.
Qed.

(** What a successful pivot holds. *)
Lemma pivot_ok rows grid :
  Frame.pivot rows = Ok grid ->
  NoDup (map Frame.ma_key rows)
  /\ grid = {| Frame.grid_index := Frame.labels (map ma_year rows);
               Frame.grid_columns := Frame.labels (map ma_month rows);
               Frame.grid_values :=
                 map (fun y => map (Frame.cell rows y)
                                   (Frame.labels (map ma_month rows)))
                     (Frame.labels (map ma_year rows)) |}.
Proof.
  unfold Frame.pivot.
  destruct (Frame.has_duplicates (map Frame.ma_key rows)) eqn:E;
    [discriminate|].
  intros H. injection H as <-. split; [|reflexivity].
  apply has_duplicates_false_NoDup. exact E.
Qed.

(** The cell at two labels of the grid is the value the table has for the
    pair, NaN when it has none. *)
Lemma pivot_grid_at rows grid y m :
  Frame.pivot rows = Ok grid ->
  In y (map ma_year rows) -> In m (map ma_month rows) ->
  grid_at grid y m = Some (Frame.cell rows y m).
Proof.
  intros Hp Hy Hm. apply pivot_ok in Hp as [_ ->]. unfold grid_at. cbn.
  apply labels_In, position_In in Hy as (i & -> & Hi).
  apply labels_In, position_In in Hm as (j & -> & Hj).
  rewrite nth_error_map, Hi. cbn. rewrite nth_error_map, Hj. reflexivity.
Qed.

Lemma grid_at_unknown_label rows grid y m :
  Frame.pivot rows = Ok grid ->
  ~ In y (map ma_year rows) \/ ~ In m (map ma_month rows) ->
  grid_at grid y m = None.
Proof.
  intros Hp H. apply pivot_ok in Hp as [_ ->]. unfold grid_at. cbn.
  destruct H as [H | H].
  - rewrite position_not_In; [reflexivity|]. rewrite labels_In. exact H.
  - rewrite (position_not_In m); [|rewrite labels_In; exact H].
    destruct (position y _); reflexivity.
Qed.

Lemma NoDup_map_eq {A B} (f : A -> B) l x y :
  NoDup (map f l) -> In x l -> In y l -> f x = f y -> x = y.
Proof.
  induction l as [|a l IH]; [contradiction|]. cbn. intros Hnd Hx Hy E.
  apply NoDup_cons_iff in Hnd as [Hfresh Hnd].
  destruct Hx as [-> | Hx], Hy as [-> | Hy]; auto.
  - exfalso. apply Hfresh. rewrite E. apply in_map. exact Hy.
  - exfalso. apply Hfresh. rewrite <- E. apply in_map. exact Hx.
Qed.

Lemma cell_of_row rows r :
  NoDup (map Frame.ma_key rows) -> In r rows ->
  Frame.cell rows (ma_year r) (ma_month r) = ma_healthcare_capacity r.
Proof.
  intros Hnd Hr. unfold Frame.cell.
  destruct (find (fun r' => Frame.ym_eqb (Frame.ma_key r')
                                        (ma_year r, ma_month r))
                 rows) as [r'|] eqn:E.
  - apply find_some in E as [Hr' Hk]. apply ym_eqb_eq in Hk.
    rewrite (NoDup_map_eq Frame.ma_key rows r' r Hnd Hr' Hr Hk). reflexivity.
  - exfalso. apply (find_none _ _ E) in Hr.
    assert (Frame.ym_eqb (Frame.ma_key r) (ma_year r, ma_month r) = true)
      by (apply ym_eqb_eq; reflexivity).
    congruence.
Qed.

Lemma cell_without_row rows y m :
  ~ In (y, m) (map Frame.ma_key rows) -> Frame.cell rows y m = nan.
Proof.
  intros Hn. unfold Frame.cell.
  destruct (find (fun r' => Frame.ym_eqb (Frame.ma_key r') (y, m)) rows)
    as [r'|] eqn:E; [|reflexivity].
  exfalso. apply find_some in E as [Hr' Hk]. apply ym_eqb_eq in Hk.
  apply Hn. rewrite <- Hk. apply in_map. exact Hr'.
Qed.

End PivotFacts.

(** ** More facts on the merge *)

Module MergeFacts.

Import Float64 Spec JoinFacts.

Lemma matches_In hosp c r :
  In r (matches hosp c)
  <-> exists h, In h hosp /\ case_key c = hospital_key h
                /\ r = joined_row c h.
Proof.
  unfold matches. rewrite in_map_iff. split.
  - intros (h & <- & Hh). apply filter_In in Hh as [Hh Hk].
    apply on_date_state_eq in Hk. eauto.
  - intros (h & Hh & Hk & ->). exists h. split; [reflexivity|].
    apply filter_In. split; [exact Hh|]. apply on_date_state_eq. exact Hk.
Qed.

Lemma case_key_test k c :
  ts_eqb (c_date c) (fst k) && String.eqb (c_state c) (snd k) = true
  <-> case_key c = k.
Proof.
  unfold case_key. rewrite andb_true_iff, ts_eqb_eq, String.eqb_eq.
  destruct k; cbn. split.
  - intros [-> ->]. reflexivity.
  - intros H. injection H as -> ->. auto.
Qed.

Lemma hospital_key_test k h :
  ts_eqb (h_date h) (fst k) && String.eqb (h_state h) (snd k) = true
  <-> hospital_key h = k.
Proof.
  unfold hospital_key. rewrite andb_true_iff, ts_eqb_eq, String.eqb_eq.
  destruct k; cbn. split.
  - intros [-> ->]. reflexivity.
  - intros H. injection H as -> ->. auto.
Qed.

Lemma bool_eq_iff (a b : bool) : (a = true <-> b = true) -> a = b.
Proof. destruct a, b; intuition congruence. Qed.

Lemma matches_length hosp c :
  length (matches hosp c) = count_hospital (case_key c) hosp.
Proof.
  unfold matches, count_hospital. rewrite length_map. f_equal.
  apply filter_ext. intros h. apply bool_eq_iff.
  rewrite on_date_state_eq, hospital_key_test. split; congruence.
Qed.

End MergeFacts.

(** ** More facts on the callback *)

Module CallbackFacts.

Import Float64 Spec Float64Facts SeriesFacts GroupFacts AppFacts App.
Local Open Scope string_scope.

Lemma take_ok {A} (rows : list A) positions out :
  Frame.take rows positions = Ok out ->
  map (@Some A) out = map (nth_error rows) positions.
Proof.
  revert out. induction positions as [|i positions IH]; cbn; intros out.
  - intros H. injection H as <-. reflexivity.
  - destruct (nth_error rows i) as [r|] eqn:Hi; [|discriminate].
    destruct (Frame.take rows positions) as [rest|e]; cbn; [|discriminate].
    intros H. injection H as <-. cbn. rewrite (IH rest eq_refl).
    reflexivity.
Qed.

Lemma take_In {A} (rows : list A) positions out r :
  Frame.take rows positions = Ok out -> In r out -> In r rows.
Proof.
  intros Ht Hr. apply take_ok in Ht.
  assert (In (Some r) (map (nth_error rows) positions)) as H
      by (rewrite <- Ht; apply in_map; exact Hr).
  apply in_map_iff in H as (i & Hi & _). eapply nth_error_In; eauto.
Qed.

Lemma sample_ok {A} choice n (rows : list A) out :
  Frame.sample choice n rows = Ok out ->
  (n <= length rows)%nat
  /\ Frame.take rows (choice (length rows) n) = Ok out.
Proof.
  unfold Frame.sample.
  destruct ((length rows =? 0)%nat && negb (n =? 0)%nat); [discriminate|].
  destruct (n <=? length rows)%nat eqn:E; [|discriminate].
  apply Nat.leb_le in E. auto.
Qed.

Lemma sample_In {A} choice n (rows : list A) out r :
  Frame.sample choice n rows = Ok out -> In r out -> In r rows.
Proof.
  intros Hs. apply sample_ok in Hs as [_ Ht]. eapply take_In; eauto.
Qed.

Lemma filtered_In g selected_state r :
  In r (filtered g selected_state)
  <-> In r (df g) /\ state r = selected_state.
Proof. unfold filtered. rewrite filter_In, String.eqb_eq. tauto. Qed.

(** What a call that returns has computed. *)
Lemma update_graph_ok choice selected_state g figs :
  fst (update_graph choice selected_state g) = Ok figs ->
  exists scatter_sample grid,
    Frame.sample choice 100 (filtered g selected_state) = Ok scatter_sample
    /\ Frame.pivot (heatmap_data g) = Ok grid
    /\ figs = (line_chart_of (filtered g selected_state),
               Chart.px_scatter scatter_sample
                 (String.append "Healthcare Capacity vs New Cases in "
                                selected_state),
               Chart.px_imshow grid).
Proof.
  rewrite update_graph_returns.
  destruct (Frame.sample choice 100 _) as [smp|e]; cbn; [|discriminate].
  destruct (Frame.pivot (heatmap_data g)) as [grid|e]; cbn; [|discriminate].
  intros H. injection H as <-. eauto.
Qed.

(** Positions without repetition that cover a frame select a rearrangement
    of the frame. *)
Lemma take_all_Permutation {A} (rows : list A) positions out :
  NoDup positions ->
  Forall (fun i => (i < length rows)%nat) positions ->
  length positions = length rows ->
  Frame.take rows positions = Ok out ->
  Permutation out rows.
Proof.
  intros Hnd Hall Hlen Ht. apply take_ok in Ht.
  assert (Permutation positions (seq 0 (length rows))) as Hp.
  { apply NoDup_Permutation_bis; auto.
    - rewrite length_seq. lia.
    - intros i Hi. rewrite Forall_forall in Hall. apply in_seq.
      specialize (Hall i Hi). lia. }
  assert (map (nth_error rows) (seq 0 (length rows)) = map (@Some A) rows)
    as Hall_rows.
  { clear. induction rows as [|r rows IH]; [reflexivity|].
    cbn [length seq map nth_error]. f_equal.
    rewrite <- seq_shift, map_map. exact IH. }
  apply (Permutation_map (nth_error rows)) in Hp.
  rewrite <- Ht, Hall_rows in Hp.
  apply Permutation_map_inv in Hp as (l & El & Hp).
  assert (out = l) as ->; [|symmetry; exact Hp].
  clear -El. revert l El. induction out as [|o out IH]; intros [|x l] El;
    try discriminate; [reflexivity|].
  cbn in El. injection El as -> El. f_equal. apply IH. exact El.
Qed.

Lemma first_positions_draws : draws_positions Fixtures.first_positions.
Proof.
  intros population size Hle. unfold Fixtures.first_positions.
  rewrite length_seq. split; [reflexivity|].
  apply Forall_forall. intros i Hi. apply in_seq in Hi. lia.
Qed.

Lemma first_positions_draws_distinct :
  draws_distinct_positions Fixtures.first_positions.
Proof.
  intros population size Hle.
  destruct (first_positions_draws population size Hle) as [Hlen Hall].
  repeat split; auto. apply seq_NoDup.
Qed.

Lemma last_positions_draws_distinct :
  draws_distinct_positions Fixtures.last_positions.
Proof.
  intros population size Hle. unfold Fixtures.last_positions.
  rewrite length_map, length_seq. split; [reflexivity|]. split.
  - apply Forall_forall. intros i Hi.
    apply in_map_iff in Hi as (j & <- & Hj). apply in_seq in Hj. lia.
  - apply NoDup_map_NoDup_ForallPairs; [|apply seq_NoDup].
    intros a b Ha Hb E. apply in_seq in Ha, Hb. lia.
Qed.

Lemma last_positions_draws : draws_positions Fixtures.last_positions.
Proof.
  intros population size Hle.
  destruct (last_positions_draws_distinct population size Hle)
    as (Hlen & Hall & _).
  auto.
Qed.

Lemma combine_map_same {A B C} (f : A -> B) (h : A -> C) l :
  combine (map f l) (map h l) = map (fun a => (f a, h a)) l.
Proof.
  induction l as [|a l IH]; cbn; [reflexivity|]. f_equal. exact IH.
Qed.

End CallbackFacts.

(** ** Facts on the layout *)

Module LayoutFacts.

Import Spec UniqueFacts App.

Lemma option_values g :
  map snd (dropdown_options (state_dropdown g))
  = Series.unique (map state (df g)).
Proof. cbn. rewrite map_map. apply map_id. Qed.

Lemma option_values_In g s :
  In s (map snd (dropdown_options (state_dropdown g)))
  <-> exists r, In r (df g) /\ state r = s.
Proof.
  rewrite option_values. unfold Series.unique. rewrite unique_from_In.
  rewrite in_map_iff. cbn. split.
  - intros [(r & Hr & Hin) _]. eauto.
  - intros (r & Hr & Hs). split; [eauto | tauto].
Qed.

End LayoutFacts.

(** ** Further properties of the pipeline, the layout and the callback *)

Section Coverage.

Import Float64 Spec Float64Facts SeriesFacts JoinFacts GroupFacts AppFacts.
Import UniqueFacts PivotFacts MergeFacts CallbackFacts LayoutFacts App.
Local Open Scope string_scope.

(** X1: the dropdown offers each state of the joined table exactly once,
    label and value alike, in the order in which the states first appear
    in the table. *)
Theorem dropdown_options_first_seen (g : Globals) :
  NoDup (map snd (dropdown_options (state_dropdown g)))
  /\ (forall o, In o (dropdown_options (state_dropdown g)) -> fst o = snd o)
  /\ (forall s, In s (map snd (dropdown_options (state_dropdown g)))
                <-> exists r, In r (df g) /\ state r = s)
  /\ (forall i j a b, (i < j)%nat ->
        nth_error (map snd (dropdown_options (state_dropdown g))) i = Some a ->
        nth_error (map snd (dropdown_options (state_dropdown g))) j = Some b ->
        exists p q,
          first_index a (map state (df g)) = Some p
          /\ first_index b (map state (df g)) = Some q
          /\ (p < q)%nat).
Proof.
  split; [rewrite option_values; apply unique_from_NoDup|].
  split.
  { cbn. intros o Ho. apply in_map_iff in Ho as (s & <- & _). reflexivity. }
  split; [apply option_values_In|].
  rewrite option_values. intros i j a b. apply unique_from_order.
Qed.

(** X2: a selection that is not among the dropdown options (such as the
    literal initial value when the table has no row of that state) selects
    no row, and the callback raises: the generator refuses to draw from an
    empty population. *)
Theorem selection_outside_options_raises
    (choice : nat -> nat -> list nat) (g : Globals) (selected_state : string) :
  ~ In selected_state (map snd (dropdown_options (state_dropdown g))) ->
  filtered g selected_state = []
  /\ fst (update_graph choice selected_state g)
     = Raise Frame.empty_population.
Proof.
  intros Hn.
  assert (filtered g selected_state = []) as E.
  { apply filter_nothing. intros r Hr.
    destruct (String.eqb (state r) selected_state) eqn:Es; [|reflexivity].
    exfalso. apply Hn. apply String.eqb_eq in Es.
    apply option_values_In. eauto. }
  split; [exact E|].
  apply update_graph_no_rows. exact E.
Qed.

Lemma selection_outside_options_raises_witness :
  dropdown_value (state_dropdown Fixtures.perlis_globals) = "Selangor"
  /\ map snd (dropdown_options (state_dropdown Fixtures.perlis_globals))
     = [ "Perlis" ]
  /\ fst (update_graph Fixtures.first_positions "Selangor"
            Fixtures.perlis_globals)
     = Raise (ValueError
                "a must be greater than 0 unless no samples are taken").
Proof.
  split; [reflexivity|]. split; [reflexivity|].
  apply (selection_outside_options_raises Fixtures.first_positions
           Fixtures.perlis_globals "Selangor").
  cbn. intros [H | []]. discriminate H.
Defined.

(** X3: after a successful start-up, and with a generator that draws as
    many positions as asked within the population, the callback returns
    its three figures exactly for the states with at least 100 joined
    rows. *)
Theorem callback_returns_iff_hundred_rows
    (choice : nat -> nat -> list nat)
    (cases : list CaseRecord) (hosp : list HospitalRecord) (g : Globals)
    (selected_state : string) :
  draws_positions choice ->
  startup cases hosp = Ok g ->
  (exists figs, fst (update_graph choice selected_state g) = Ok figs)
  <-> (100 <= count_occ string_dec (map state (joined cases hosp))
                        selected_state)%nat.
Proof.
  intros Hc Hg. unfold startup in Hg.
  rewrite <- filter_state_count.
  rewrite <- (summarise_df _ _ Hg) at 1. fold (filtered g selected_state).
  split.
  - intros (figs & Hf). apply update_graph_ok in Hf as (smp & _ & Hs & _).
    apply sample_ok in Hs as [Hle _]. exact Hle.
  - intros Hle.
    destruct (update_graph_hundred_points choice selected_state _ g Hc Hg Hle)
      as (figs & Hf & _).
    eauto.
Qed.

Lemma callback_returns_iff_hundred_rows_witness :
  exists figs,
    fst (update_graph Fixtures.first_positions "Penang"
           Fixtures.long_globals) = Ok figs.
Proof.
  apply (callback_returns_iff_hundred_rows Fixtures.first_positions
           Fixtures.long_cases Fixtures.long_hospital Fixtures.long_globals
           "Penang" first_positions_draws).
  - vm_compute. reflexivity.
  - vm_compute. lia.
Defined.



(** X5: when the callback returns, with a generator that draws as many
    positions as asked within the population, the scatter plot has
    exactly 100 points, and the point at a position gives the new cases
    and the capacity ratio of one joined record of the selected state. *)
Theorem scatter_points_from_selection
    (choice : nat -> nat -> list nat) (g : Globals) (selected_state : string)
    (figs : Figures) :
  draws_positions choice ->
  fst (update_graph choice selected_state g) = Ok figs ->
  length (Chart.scatter_x (snd (fst figs))) = 100%nat
  /\ length (Chart.scatter_y (snd (fst figs))) = 100%nat
  /\ (forall i x,
        nth_error (Chart.scatter_x (snd (fst figs))) i = Some x ->
        exists r,
          In r (df g) /\ state r = selected_state /\ cases_new r = x
          /\ nth_error (Chart.scatter_y (snd (fst figs))) i
             = Some (healthcare_capacity r)).
Proof.
  intros Hc Hf. apply update_graph_ok in Hf as (smp & grid & Hs & _ & ->).
  cbn. rewrite !length_map.
  assert (length smp = 100%nat) as Hlen.
  { pose proof Hs as Hs'. apply sample_ok in Hs' as [Hle Ht].
    apply take_ok in Ht. apply (f_equal (@length _)) in Ht.
    rewrite !length_map in Ht. rewrite Ht. apply (Hc _ _ Hle). }
  repeat split; auto.
  intros i x Hx. rewrite nth_error_map in Hx.
  destruct (nth_error smp i) as [r|] eqn:Hr; [|discriminate].
  cbn in Hx. injection Hx as <-.
  pose proof (sample_In _ _ _ _ r Hs (nth_error_In _ _ Hr)) as Hin.
  apply filtered_In in Hin as [Hin Hst].
  exists r. rewrite nth_error_map, Hr. cbn. auto.
Qed.

Lemma scatter_points_from_selection_witness :
  exists figs,
    fst (update_graph Fixtures.last_positions "Selangor"
           Fixtures.long_globals) = Ok figs
    /\ length (Chart.scatter_x (snd (fst figs))) = 100%nat
    /\ nth_error (Chart.scatter_x (snd (fst figs))) 0 = Some 99%Z.
Proof.
  eexists.
  assert (fst (update_graph Fixtures.last_positions "Selangor"
                 Fixtures.long_globals) = Ok _) as Hf
      by (vm_compute; reflexivity).
  split; [exact Hf|]. split; [|reflexivity].
  apply (scatter_points_from_selection Fixtures.last_positions
           Fixtures.long_globals "Selangor" _ last_positions_draws Hf).
Defined.

(** X6: when the selected state has exactly 100 joined rows and the
    generator never draws a position twice, the scatter plot shows every
    row of the state exactly once: its points are a rearrangement of the
    (new cases, capacity ratio) pairs of the selection. *)
Theorem scatter_shows_every_row
    (choice : nat -> nat -> list nat) (g : Globals) (selected_state : string)
    (figs : Figures) :
  draws_distinct_positions choice ->
  length (filtered g selected_state) = 100%nat ->
  fst (update_graph choice selected_state g) = Ok figs ->
  Permutation
    (combine (Chart.scatter_x (snd (fst figs)))
             (Chart.scatter_y (snd (fst figs))))
    (map (fun r => (cases_new r, healthcare_capacity r))
         (filtered g selected_state)).
Proof.
  intros Hc Hlen Hf.
  apply update_graph_ok in Hf as (smp & grid & Hs & _ & ->). cbn.
  rewrite combine_map_same. apply Permutation_map.
  apply sample_ok in Hs as [Hle Ht].
  destruct (Hc _ _ Hle) as (Hn & Hall & Hnd).
  apply (take_all_Permutation _ _ _ Hnd Hall); [congruence | exact Ht].
Qed.

Lemma scatter_shows_every_row_witness :
  exists figs,
    fst (update_graph Fixtures.last_positions "Selangor"
           Fixtures.long_globals) = Ok figs
    /\ Permutation
         (combine (Chart.scatter_x (snd (fst figs)))
                  (Chart.scatter_y (snd (fst figs))))
         (map (fun r => (cases_new r, healthcare_capacity r))
              (filtered Fixtures.long_globals "Selangor")).
Proof.
  eexists.
  assert (fst (update_graph Fixtures.last_positions "Selangor"
                 Fixtures.long_globals) = Ok _) as Hf
      by (vm_compute; reflexivity).
  split; [exact Hf|].
  apply (scatter_shows_every_row Fixtures.last_positions
           Fixtures.long_globals "Selangor" _
           last_positions_draws_distinct);
    [vm_compute; reflexivity | exact Hf].
Defined.

(** X7: a pivot that succeeds can be read back: the cell at the year and
    month of every row of the table is the value of that row; the grid
    has one line per index label and one cell per column label in each
    line, and both label lists are strictly increasing. *)
Theorem pivot_cell_round_trip
    (rows : list MonthlyAverage) (grid : Frame.Grid) :
  Frame.pivot rows = Ok grid ->
  (forall r, In r rows ->
     grid_at grid (ma_year r) (ma_month r) = Some (ma_healthcare_capacity r))
  /\ length (Frame.grid_values grid) = length (Frame.grid_index grid)
  /\ Forall (fun line => length line = length (Frame.grid_columns grid))
            (Frame.grid_values grid)
  /\ StronglySorted Z.lt (Frame.grid_index grid)
  /\ StronglySorted Z.lt (Frame.grid_columns grid).
Proof.
  intros Hp. pose proof (pivot_ok _ _ Hp) as [Hnd Hgrid]. split.
  - intros r Hr.
    rewrite (pivot_grid_at rows grid (ma_year r) (ma_month r) Hp)
      by (apply in_map; exact Hr).
    rewrite (cell_of_row rows r Hnd Hr). reflexivity.
  - subst grid. cbn. rewrite length_map. repeat split.
    + apply Forall_forall. intros line Hl.
      apply in_map_iff in Hl as (y & <- & _). apply length_map.
    + apply labels_sorted.
    + apply labels_sorted.
Qed.

Lemma pivot_cell_round_trip_witness :
  Frame.pivot (heatmap_data Fixtures.sparse_globals) = Ok Fixtures.sparse_grid
  /\ forall r, In r (heatmap_data Fixtures.sparse_globals) ->
       grid_at Fixtures.sparse_grid (ma_year r) (ma_month r)
       = Some (ma_healthcare_capacity r).
Proof.
  assert (Frame.pivot (heatmap_data Fixtures.sparse_globals)
          = Ok Fixtures.sparse_grid) as Hp by (vm_compute; reflexivity).
  split; [exact Hp|].
  exact (proj1 (pivot_cell_round_trip
                  (heatmap_data Fixtures.sparse_globals)
                  Fixtures.sparse_grid Hp)).
Defined.

(** X9: after a successful start-up, every cell of the heatmap grid at an
    index year and a column month holds a value, and that value is NaN
    exactly when no joined record falls in that year and month: an
    undefined monthly mean never shows as NaN. *)
Theorem heatmap_nan_cell_iff_no_data
    (cases : list CaseRecord) (hosp : list HospitalRecord) (g : Globals)
    (grid : Frame.Grid) (y m : Z) :
  startup cases hosp = Ok g ->
  Frame.pivot (heatmap_data g) = Ok grid ->
  In y (Frame.grid_index grid) ->
  In m (Frame.grid_columns grid) ->
  exists v,
    grid_at grid y m = Some v
    /\ (PrimFloat.is_nan v = true
        <-> forall r, In r (joined cases hosp) -> (year r, month r) <> (y, m)).
Proof.
  unfold startup. intros Hg Hp Hy Hm.
  pose proof (pivot_ok _ _ Hp) as [Hnd Hgrid].
  assert (In y (map ma_year (heatmap_data g))) as Hy'
      by (apply labels_In; rewrite Hgrid in Hy; exact Hy).
  assert (In m (map ma_month (heatmap_data g))) as Hm'
      by (apply labels_In; rewrite Hgrid in Hm; exact Hm).
  rewrite (pivot_grid_at _ _ y m Hp Hy' Hm'). eexists. split; [reflexivity|].
  pose proof (summarise_heatmap_data _ _ Hg) as Hhd.
  assert (forall k, In k (map Frame.ma_key (heatmap_data g))
                    <-> exists r, In r (joined cases hosp)
                                  /\ (year r, month r) = k) as Hkeys.
  { intros k. rewrite Hhd, monthly_keys. apply group_keys_In. }
  split.
  - intros Hnan r Hr Hk.
    assert (In (y, m) (map Frame.ma_key (heatmap_data g))) as Hin
        by (apply Hkeys; eauto).
    apply in_map_iff in Hin as (row & Hrow & Hin).
    injection Hrow as <- <-.
    rewrite (cell_of_row _ row Hnd Hin) in Hnan.
    rewrite Hhd in Hin. rewrite (monthly_row _ _ Hin) in Hnan.
    rewrite fillna0_defined in Hnan. discriminate.
  - intros Hnone. rewrite cell_without_row; [reflexivity|].
    intros Hin. apply Hkeys in Hin as (r & Hr & Hk). exact (Hnone r Hr Hk).
Qed.

Lemma heatmap_nan_cell_iff_no_data_witness :
  Frame.pivot (heatmap_data Fixtures.sparse_globals) = Ok Fixtures.sparse_grid
  /\ grid_at Fixtures.sparse_grid 2021 2 = Some nan
  /\ exists v,
      grid_at Fixtures.sparse_grid 2021 2 = Some v
      /\ (PrimFloat.is_nan v = true
          <-> forall r,
                In r (joined Fixtures.sparse_cases Fixtures.sparse_hospital) ->
                (year r, month r) <> (2021%Z, 2%Z)).
Proof.
  assert (Frame.pivot (heatmap_data Fixtures.sparse_globals)
          = Ok Fixtures.sparse_grid) as Hp by (vm_compute; reflexivity).
  split; [exact Hp|]. split; [reflexivity|].
  apply (heatmap_nan_cell_iff_no_data Fixtures.sparse_cases
           Fixtures.sparse_hospital Fixtures.sparse_globals
           Fixtures.sparse_grid 2021 2).
  - vm_compute. reflexivity.
  - exact Hp.
  - cbn. auto.
  - cbn. auto.
Defined.

(** X10: the joined table holds exactly the pairings of a case row and a
    hospital row with the same (date, state), whether or not keys repeat:
    every joined record is such a pairing and every such pairing is a
    joined record. *)
Theorem joined_iff_matching_rows
    (cases : list CaseRecord) (hosp : list HospitalRecord) (r : JoinedRecord) :
  In r (joined cases hosp)
  <-> exists c h, In c cases /\ In h hosp
                  /\ case_key c = hospital_key h /\ r = joined_row c h.
Proof.
  induction cases as [|c cases IH].
  - rewrite joined_nil. cbn. split; [contradiction|].
    intros (c & h & [] & _).
  - rewrite joined_cons, in_app_iff, IH, matches_In. split.
    + intros [(h & Hh & Hk & ->) | (c' & h & Hc' & Hh & Hk & ->)].
      * exists c, h. repeat split; auto. left. reflexivity.
      * exists c', h. repeat split; auto. right. exact Hc'.
    + intros (c' & h & [<- | Hc'] & Hh & Hk & ->).
      * left. exists h. auto.
      * right. exists c', h. auto.
Qed.

(** X11: repeated keys multiply: the number of joined records of a
    (date, state) pair is the number of case rows with the pair times the
    number of hospital rows with it. *)
Theorem joined_count_product
    (cases : list CaseRecord) (hosp : list HospitalRecord)
    (k : Timestamp * string) :
  length (filter (has_key k) (joined cases hosp))
  = (count_cases k cases * count_hospital k hosp)%nat.
Proof.
  induction cases as [|c cases IH].
  - reflexivity.
  - rewrite joined_cons, filter_app, length_app, IH.
    unfold count_cases at 2. cbn [filter].
    destruct (ts_eqb (c_date c) (fst k) && String.eqb (c_state c) (snd k))
      eqn:E.
    + apply case_key_test in E.
      rewrite (matches_same_key hosp c k E), matches_length, E.
      cbn [length]. fold (count_cases k cases). lia.
    + assert (case_key c <> k) as Hne
          by (rewrite <- case_key_test; congruence).
      rewrite (matches_other_key hosp c k Hne). cbn [length].
      fold (count_cases k cases). lia.
Qed.

(** X12: after a successful start-up the rows of the monthly table come
    in strictly increasing order of (year, month). *)
Theorem monthly_table_sorted
    (cases : list CaseRecord) (hosp : list HospitalRecord) (g : Globals) :
  startup cases hosp = Ok g ->
  increasing (map Frame.ma_key (heatmap_data g)).
Proof.
  unfold startup. intros Hg.
  rewrite (summarise_heatmap_data _ _ Hg), monthly_keys.
  apply group_keys_increasing.
Qed.

Lemma monthly_table_sorted_witness :
  map Frame.ma_key (heatmap_data Fixtures.sparse_globals)
  = [ (2021%Z, 1%Z); (2022%Z, 2%Z) ]
  /\ increasing (map Frame.ma_key (heatmap_data Fixtures.sparse_globals)).
Proof.
  split; [reflexivity|].
  apply (monthly_table_sorted Fixtures.sparse_cases Fixtures.sparse_hospital).
  vm_compute. reflexivity.
Defined.

(** X13: when the beds of the joined table sum to zero, the start-up does
    not raise on the COVID-bed card: the card is NaN or an infinity. *)
Theorem covid_card_without_beds
    (cases : list CaseRecord) (hosp : list HospitalRecord) (g : Globals) :
  startup cases hosp = Ok g ->
  Zsum (map beds (joined cases hosp)) = 0%Z ->
  non_finite (beds_utilized_by_covid g).
Proof.
  unfold startup. intros Hg Hz.
  destruct (summarise_ok _ _ Hg) as (i & v & row & _ & _ & ->). cbn.
  rewrite (sum_int64_wrap (map beds _)), Hz.
  change (of_int64 (Int64.wrap 0)) with 0%float.
  apply div_zero_mul_100.
Qed.

Lemma covid_card_without_beds_witness :
  startup Fixtures.zero_beds_cases Fixtures.zero_beds_hospital
  = Ok Fixtures.zero_beds_globals
  /\ beds_utilized_by_covid Fixtures.zero_beds_globals = nan
  /\ non_finite (beds_utilized_by_covid Fixtures.zero_beds_globals).
Proof.
  assert (startup Fixtures.zero_beds_cases Fixtures.zero_beds_hospital
          = Ok Fixtures.zero_beds_globals) as Hg by (vm_compute; reflexivity).
  split; [exact Hg|]. split; [reflexivity|].
  apply (covid_card_without_beds _ _ _ Hg). reflexivity.
Defined.

(** X14: the start-up succeeds exactly when some joined record has a
    defined capacity ratio; otherwise (no joined record at all, or only
    0/0 ratios) it raises at [idxmax]. *)
Theorem startup_succeeds_iff_defined_ratio
    (cases : list CaseRecord) (hosp : list HospitalRecord) :
  (exists g, startup cases hosp = Ok g)
  <-> exists r, In r (joined cases hosp)
                /\ PrimFloat.is_nan (healthcare_capacity r) = false.
Proof.
  unfold startup. split.
  - intros (g & Hg).
    destruct (summarise_ok _ _ Hg) as (i & v & row & [Hna _] & _ & _).
    apply all_na_false in Hna as (x & Hx & Hd).
    apply in_map_iff in Hx as (r & <- & Hr). eauto.
  - intros (r & Hr & Hdef).
    assert (Series.all_na (map healthcare_capacity (joined cases hosp))
            = false) as Hna.
    { apply all_na_false. exists (healthcare_capacity r).
      split; [apply in_map; exact Hr | exact Hdef]. }
    destruct (idxmax_defined _ Hna) as [i Hi].
    pose proof (idxmax_ok _ _ Hi) as (_ & v & _ & Hnth & _).
    rewrite fill_nth_error, nth_error_map in Hnth.
    unfold summarise, Frame.loc. rewrite Hi. cbn.
    destruct (nth_error (joined cases hosp) i) as [row|];
      [|discriminate Hnth].
    cbn. eauto.
Qed.

(** X15: the generator only reaches the scatter plot: two calls for the
    same selection that return, with whatever generators, return the same
    line chart and the same heatmap. *)
Theorem generator_only_affects_scatter
    (choice1 choice2 : nat -> nat -> list nat) (g : Globals)
    (selected_state : string) (figs1 figs2 : Figures) :
  fst (update_graph choice1 selected_state g) = Ok figs1 ->
  fst (update_graph choice2 selected_state g) = Ok figs2 ->
  fst (fst figs1) = fst (fst figs2) /\ snd figs1 = snd figs2.
Proof.
  intros H1 H2.
  apply update_graph_ok in H1 as (smp1 & grid1 & _ & Hp1 & ->).
  apply update_graph_ok in H2 as (smp2 & grid2 & _ & Hp2 & ->).
  rewrite Hp1 in Hp2. injection Hp2 as <-. auto.
Qed.

Lemma generator_only_affects_scatter_witness :
  exists figs1 figs2,
    fst (update_graph Fixtures.first_positions "Penang"
           Fixtures.long_globals) = Ok figs1
    /\ fst (update_graph Fixtures.last_positions "Penang"
              Fixtures.long_globals) = Ok figs2
    /\ snd (fst figs1) <> snd (fst figs2)
    /\ fst (fst figs1) = fst (fst figs2) /\ snd figs1 = snd figs2.
Proof.
  eexists. eexists.
  assert (fst (update_graph Fixtures.first_positions "Penang"
                 Fixtures.long_globals) = Ok _) as H1
      by (vm_compute; reflexivity).
  assert (fst (update_graph Fixtures.last_positions "Penang"
                 Fixtures.long_globals) = Ok _) as H2
      by (vm_compute; reflexivity).
  split; [exact H1|]. split; [exact H2|]. split; [discriminate|].
  exact (generator_only_affects_scatter _ _ _ _ _ _ H1 H2).
Defined.

(** X16: the int64 sum of a column never leaves the int64 range and
    differs from the exact sum by a multiple of 2^64; it is the exact sum
    whenever that one is within int64. *)
Theorem column_sum_wraps (s : list Z) :
  Int64.in_range (Series.sum_int64 s)
  /\ ((Series.sum_int64 s - Zsum s) mod 2 ^ 64 = 0)%Z
  /\ (Int64.in_range (Zsum s) -> Series.sum_int64 s = Zsum s).
Proof.
  rewrite sum_int64_wrap. unfold Int64.in_range, Int64.wrap.
  pose proof (Z.mod_pos_bound (Zsum s + 2 ^ 63) (2 ^ 64) ltac:(lia)) as Hb.
  split; [lia|]. split.
  - rewrite (Z.mod_eq (Zsum s + 2 ^ 63) (2 ^ 64)) by lia.
    replace (Zsum s + 2 ^ 63 - 2 ^ 64 * ((Zsum s + 2 ^ 63) / 2 ^ 64)
             - 2 ^ 63 - Zsum s)%Z
      with (- ((Zsum s + 2 ^ 63) / 2 ^ 64) * 2 ^ 64)%Z by lia.
    apply Z.mod_mul. lia.
  - intros Hr. rewrite Z.mod_small; lia.
Qed.

(** X17: the monthly table follows the dates: after a successful start-up
    it has a row for a year and a month exactly when the date of some
    joined record falls in that year and month. *)
Theorem monthly_rows_follow_dates
    (cases : list CaseRecord) (hosp : list HospitalRecord) (g : Globals)
    (y m : Z) :
  startup cases hosp = Ok g ->
  In (y, m) (map Frame.ma_key (heatmap_data g))
  <-> exists r, In r (joined cases hosp)
                /\ ts_year (date r) = y /\ ts_month (date r) = m.
Proof.
  unfold startup. intros Hg.
  rewrite (summarise_heatmap_data _ _ Hg), monthly_keys, group_keys_In.
  split.
  - intros (r & Hr & Hk). injection Hk as <- <-.
    destruct (joined_year_month cases hosp r Hr) as [Hy Hm]. eauto.
  - intros (r & Hr & <- & <-).
    destruct (joined_year_month cases hosp r Hr) as [Hy Hm].
    exists r. rewrite Hy, Hm. auto.
Qed.

Lemma monthly_rows_follow_dates_witness :
  In (2022%Z, 2%Z) (map Frame.ma_key (heatmap_data Fixtures.sparse_globals))
  /\ exists r, In r (joined Fixtures.sparse_cases Fixtures.sparse_hospital)
               /\ ts_year (date r) = 2022%Z /\ ts_month (date r) = 2%Z.
Proof.
  assert (In (2022%Z, 2%Z)
             (map Frame.ma_key (heatmap_data Fixtures.sparse_globals))) as Hin
      by (cbn; auto).
  split; [exact Hin|].
  apply (monthly_rows_follow_dates Fixtures.sparse_cases
           Fixtures.sparse_hospital Fixtures.sparse_globals 2022 2);
    [vm_compute; reflexivity | exact Hin].
Defined.

(** X18: after a successful start-up, and with a generator that draws as
    many positions as asked within the population, the callback raises
    only when the generator refuses the draw: for a state without any
    joined row because the population is empty, and for a state with
    fewer than 100 joined rows because the sample is larger than the
    population. *)
Theorem callback_only_raises_on_small_selection
    (choice : nat -> nat -> list nat)
    (cases : list CaseRecord) (hosp : list HospitalRecord) (g : Globals)
    (selected_state : string) (e : exn) :
  draws_positions choice ->
  startup cases hosp = Ok g ->
  fst (update_graph choice selected_state g) = Raise e ->
  (e = Frame.empty_population
   /\ count_occ string_dec (map state (joined cases hosp)) selected_state
      = 0%nat)
  \/ (e = Frame.larger_sample_than_population
      /\ (0 < count_occ string_dec (map state (joined cases hosp))
                        selected_state < 100)%nat).
Proof.
  intros Hc Hg He. unfold startup in Hg.
  rewrite <- !filter_state_count.
  rewrite <- (summarise_df _ _ Hg). fold (filtered g selected_state).
  destruct (filtered g selected_state) as [|r rows] eqn:Ef.
  - left. rewrite (update_graph_no_rows choice selected_state g Ef) in He.
    injection He as <-. auto.
  - right. rewrite <- Ef in *.
    assert (0 < length (filtered g selected_state))%nat as Hpos
        by (rewrite Ef; cbn; lia).
    destruct (Nat.lt_ge_cases (length (filtered g selected_state)) 100)
      as [Hlt | Hge].
    + rewrite (update_graph_too_few_rows choice selected_state g
                 (conj Hpos Hlt)) in He.
      injection He as <-. auto.
    + destruct (update_graph_hundred_points choice selected_state _ g
                  Hc Hg Hge) as (figs & Hf & _).
      rewrite Hf in He. discriminate.
Qed.

Lemma callback_only_raises_on_small_selection_witness :
  fst (update_graph Fixtures.first_positions "Perlis" Fixtures.perlis_globals)
  = Raise Frame.larger_sample_than_population
  /\ count_occ string_dec
       (map state (joined Fixtures.perlis_cases Fixtures.perlis_hospital))
       "Perlis" = 3%nat
  /\ ((Frame.larger_sample_than_population = Frame.empty_population
       /\ count_occ string_dec
            (map state (joined Fixtures.perlis_cases Fixtures.perlis_hospital))
            "Perlis" = 0%nat)
      \/ (Frame.larger_sample_than_population
          = Frame.larger_sample_than_population
          /\ (0 < count_occ string_dec
                    (map state
                         (joined Fixtures.perlis_cases
                                 Fixtures.perlis_hospital))
                    "Perlis" < 100)%nat)).
Proof.
  assert (fst (update_graph Fixtures.first_positions "Perlis"
                 Fixtures.perlis_globals)
          = Raise Frame.larger_sample_than_population) as He
      by (vm_compute; reflexivity).
  assert (startup Fixtures.perlis_cases Fixtures.perlis_hospital
          = Ok Fixtures.perlis_globals) as Hg by (vm_compute; reflexivity).
  split; [exact He|]. split; [reflexivity|].
  exact (callback_only_raises_on_small_selection
           Fixtures.first_positions
           Fixtures.perlis_cases Fixtures.perlis_hospital
           Fixtures.perlis_globals "Perlis"
           Frame.larger_sample_than_population
           first_positions_draws Hg He).
Defined.

End Coverage.
